(** * mp3DurationDetector: the C/C++ bridge [mp3_lib.cpp] and its ABI [mp3_lib.h]

    The bridge is a thin lifecycle layer (detector, session init / run /
    deinit, one-shot analyze) over three link-time replaceable functions
    [mp3_rust_session_*_impl].  The development embeds

    - the ABI types of [mp3_lib.h] as records and an enumeration,
    - the memory the bridge touches (the detector singleton, the session
      objects it allocates, the caller's out-variables) as one explicit
      [world], threaded through a state monad whose failure is C++
      undefined behaviour (use of a dead session object),
    - the weak symbols as an interface [Engine], with the stubs of
      [mp3_lib.cpp] as one instance,
    - the host read callback of [TestCppApp/src/main.cpp]. *)

From Stdlib Require Import ZArith List Lia.
From Stdlib Require Import Strings.Byte.
From stdpp Require Import base decidable option numbers list gmap.

Local Open Scope Z_scope.

(** ** ABI types ([mp3_lib.h]) *)

(** Addresses of objects; a pointer is an optional address and [None] is
    the null pointer. *)
Abbreviation addr := positive.
Abbreviation ptr := (option addr).
Abbreviation nullptr := (@None _) (only parsing).

(** [mp3_result_t], with the numeric values of the enumeration. *)
Inductive mp3_result_t : Set :=
  | MP3_OK
  | MP3_ERR_INVALID_PTR
  | MP3_ERR_INVALID_ARG
  | MP3_ERR_OUT_OF_MEMORY
  | MP3_ERR_IO
  | MP3_ERR_INVALID_FORMAT
  | MP3_ERR_NOT_IMPLEMENTED
  | MP3_ERR_INTERNAL
  | MP3_ERR_UNKNOWN.

#[global] Instance mp3_result_eq_dec : EqDecision mp3_result_t.
Proof. solve_decision. Defined.

Definition result_value (r : mp3_result_t) : Z :=
  match r with
  | MP3_OK => 0
  | MP3_ERR_INVALID_PTR => 1
  | MP3_ERR_INVALID_ARG => 2
  | MP3_ERR_OUT_OF_MEMORY => 3
  | MP3_ERR_IO => 4
  | MP3_ERR_INVALID_FORMAT => 5
  | MP3_ERR_NOT_IMPLEMENTED => 6
  | MP3_ERR_INTERNAL => 7
  | MP3_ERR_UNKNOWN => 255
  end.

(** [mp3_audio_info_t]: unsigned fields of 32, 16, 16, 32, 32, 64 and 8
    bits, each held as its value in [Z]. *)
Record mp3_audio_info_t : Set := AudioInfo {
  sample_rate : Z;
  channels : Z;
  bits_per_sample : Z;
  bitrate : Z;
  duration_ms : Z;
  data_size : Z;
  valid : Z
}.

(** What [std::memset(out_info, 0, sizeof( *out_info))] leaves. *)
Definition zero_info : mp3_audio_info_t :=
  {| sample_rate := 0; channels := 0; bits_per_sample := 0; bitrate := 0;
     duration_ms := 0; data_size := 0; valid := 0 |}.

(** An open [FILE]: the bytes of the file, and how far past its end the
    file system still accepts a file offset.  [max_offset] is the largest
    offset that [fseeko] accepts on the stream; it depends on the file
    system, and is never below the length of the file. *)
Record FILE : Set := File {
  file_bytes : list byte;
  seek_slack : nat
}.

Definition max_offset (f : FILE) : Z :=
  Z.of_nat (length (file_bytes f)) + Z.of_nat (seek_slack f).

(** [FileReadContext] of the test host: the open file, or a null
    [FILE*]. *)
Record FileReadContext : Set := FileCtx {
  fp : option FILE;
  fileSize : Z
}.

(** Callback types.  [mp3_read_at_fn] returns the result code together
    with the bytes stored at [dst]; their number is [*out_read]. *)
Definition mp3_read_at_fn : Set :=
  option FileReadContext -> Z -> nat -> mp3_result_t * list byte.
Definition mp3_alloc_fn : Set := option FileReadContext -> Z -> ptr.
Definition mp3_free_fn : Set := option FileReadContext -> ptr -> unit.
Definition mp3_log_fn : Set := option FileReadContext -> Z -> list byte -> unit.

(** [mp3_host_api_t]; a callback that is a null function pointer is
    [None]. *)
Record mp3_host_api_t : Set := HostApi {
  user_ctx : option FileReadContext;
  source_size : Z;
  read_at : option mp3_read_at_fn;
  alloc : option mp3_alloc_fn;
  free : option mp3_free_fn;
  log : option mp3_log_fn
}.

(** ** Internal structures ([mp3_lib.cpp]) *)

Record mp3_detector_t : Set := Detector { reserved : Z }.

Record mp3_session_t : Set := Session { rust_session : ptr }.

(** The address of the singleton [g_detector]. *)
Definition g_detector_addr : addr := 1%positive.

(** ** The weak symbols as an interface

    [mp3_rust_session_init_impl], [mp3_rust_session_run_impl] and
    [mp3_rust_session_deinit_impl] are resolved at link time.  They see
    their arguments and the engine's own state [E], nothing of the
    bridge ([g_detector] has internal linkage, session objects are never
    handed over).  A pointer argument that the callee may write through
    is passed as the pointee's content, [None] for a null pointer, and
    handed back. *)
Class Engine (E : Type) := {
  mp3_rust_session_init_impl :
    option mp3_host_api_t -> option ptr -> E -> mp3_result_t * option ptr * E;
  mp3_rust_session_run_impl :
    ptr -> option mp3_audio_info_t -> E ->
    mp3_result_t * option mp3_audio_info_t * E;
  mp3_rust_session_deinit_impl : ptr -> E -> E
}.

(** The stubs of [mp3_lib.cpp], used when no engine is linked. *)
#[global] Instance weak_stub : Engine unit := {
  mp3_rust_session_init_impl _ out_rust_session e :=
    (MP3_ERR_NOT_IMPLEMENTED, out_rust_session, e);
  mp3_rust_session_run_impl _ out_info e :=
    (MP3_ERR_NOT_IMPLEMENTED,
     match out_info with
     | Some _ => Some zero_info
     | None => None
     end,
     e);
  mp3_rust_session_deinit_impl _ e := e
}.

(** ** Memory *)

(** Everything the bridge can read or write: the singleton, the session
    objects obtained from [new (std::nothrow)] (at most [heap_limit] fit),
    the [mp3_session_t*] variables and [mp3_audio_info_t] records of the
    callers, and the engine's state. *)
Record world (E : Type) := World {
  g_detector : mp3_detector_t;
  heap : gmap addr mp3_session_t;
  heap_limit : nat;
  session_vars : gmap addr ptr;
  info_vars : gmap addr mp3_audio_info_t;
  rust : E
}.
Arguments World {E}.
Arguments g_detector {E}.
Arguments heap {E}.
Arguments heap_limit {E}.
Arguments session_vars {E}.
Arguments info_vars {E}.
Arguments rust {E}.

Section Bridge.
Context {E : Type} {impl : Engine E}.

Definition set_heap (f : gmap addr mp3_session_t -> gmap addr mp3_session_t)
    (w : world E) : world E :=
  World (g_detector w) (f (heap w)) (heap_limit w) (session_vars w)
        (info_vars w) (rust w).
Definition set_session_vars (f : gmap addr ptr -> gmap addr ptr)
    (w : world E) : world E :=
  World (g_detector w) (heap w) (heap_limit w) (f (session_vars w))
        (info_vars w) (rust w).
Definition set_info_vars
    (f : gmap addr mp3_audio_info_t -> gmap addr mp3_audio_info_t)
    (w : world E) : world E :=
  World (g_detector w) (heap w) (heap_limit w) (session_vars w)
        (f (info_vars w)) (rust w).
Definition set_rust (e : E) (w : world E) : world E :=
  World (g_detector w) (heap w) (heap_limit w) (session_vars w)
        (info_vars w) e.

(** *** The monad of bridge code

    A computation maps a world to its value and the new world; [None]
    is undefined behaviour. *)
Definition M (A : Type) : Type := world E -> option (A * world E).

Definition ret {A} (a : A) : M A := fun w => Some (a, w).
Definition bind {A B} (c : M A) (k : A -> M B) : M B :=
  fun w => match c w with
           | Some (a, w') => k a w'
           | None => None
           end.
Definition modify (f : world E -> world E) : M unit :=
  fun w => Some (tt, f w).

Notation "x <- c ;; k" := (bind c (fun x => k))
  (at level 100, c at next level, right associativity).
Notation "c ;;; k" := (bind c (fun _ => k))
  (at level 100, right associativity).

(** [*p = v] for a caller's [mp3_session_t*] variable. *)
Definition store_session_var (p : addr) (v : ptr) : M unit :=
  modify (set_session_vars <[p := v]>).

(** Reading such a variable; one that was never written has no value. *)
Definition load_session_var (p : addr) : M ptr :=
  fun w => match session_vars w !! p with
           | Some v => Some (v, w)
           | None => None
           end.

(** A local [mp3_session_t* session = v;] and the end of its scope. *)
Definition push_local (v : ptr) : M addr :=
  fun w => let p := fresh (dom (session_vars w)) in
           Some (p, set_session_vars <[p := v]> w).
Definition pop_local (p : addr) : M unit :=
  modify (set_session_vars (delete p)).

(** [std::memset(out_info, 0, sizeof( *out_info))]. *)
Definition memset_info (p : addr) : M unit :=
  modify (set_info_vars <[p := zero_info]>).

(** [new (std::nothrow) mp3_session_t{}]: a value-initialised object at
    an unused address, or null when the heap is exhausted. *)
Definition new_session : M ptr :=
  fun w => if decide (size (heap w) < heap_limit w)%nat
           then let s := fresh (dom (heap w)) in
                Some (Some s, set_heap <[s := Session nullptr]> w)
           else Some (nullptr, w).

(** [delete session]; deleting what is not a live object is undefined. *)
Definition delete_session (s : addr) : M unit :=
  fun w => match heap w !! s with
           | Some _ => Some (tt, set_heap (delete s) w)
           | None => None
           end.

(** [session->rust_session], as an rvalue and as an lvalue. *)
Definition load_rust_session (s : addr) : M ptr :=
  fun w => match heap w !! s with
           | Some obj => Some (rust_session obj, w)
           | None => None
           end.
Definition store_rust_session (s : addr) (v : ptr) : M unit :=
  fun w => match heap w !! s with
           | Some _ => Some (tt, set_heap <[s := Session v]> w)
           | None => None
           end.

(** Calls through the weak symbols. *)
Definition call_init_impl (host_api : option mp3_host_api_t)
    (rust_session0 : ptr) : M (mp3_result_t * ptr) :=
  fun w =>
    let '(r, out, e) :=
      mp3_rust_session_init_impl host_api (Some rust_session0) (rust w) in
    Some ((r, default rust_session0 out), set_rust e w).

Definition call_run_impl (rs : ptr) (out_info : ptr) : M mp3_result_t :=
  fun w =>
    match out_info with
    | None =>
        let '(r, _, e) := mp3_rust_session_run_impl rs None (rust w) in
        Some (r, set_rust e w)
    | Some p =>
        match info_vars w !! p with
        | None => None
        | Some info =>
            let '(r, out, e) :=
              mp3_rust_session_run_impl rs (Some info) (rust w) in
            Some (r, set_rust e
                       (set_info_vars <[p := default info out]> w))
        end
    end.

Definition call_deinit_impl (rs : ptr) : M unit :=
  modify (fun w => set_rust (mp3_rust_session_deinit_impl rs (rust w)) w).

(** *** Lifecycle API *)

(** [mp3_detector_create] and [mp3_detector_instance] return
    [&g_detector]; [mp3_detector_destroy] ignores its argument. *)
Definition mp3_detector_create : M ptr := ret (Some g_detector_addr).

Definition mp3_detector_destroy (detector : ptr) : M unit := ret tt.

Definition mp3_detector_instance : M ptr := ret (Some g_detector_addr).

(** [mp3_session_init]: the pointer check, the check of the read
    callback, then [*out_session = nullptr], the session object, the
    engine's initialisation, and on success the handle in
    [*out_session]. *)
Definition mp3_session_init (detector : ptr)
    (host_api : option mp3_host_api_t) (out_session : ptr)
    : M mp3_result_t :=
  match detector, host_api, out_session with
  | Some _, Some api, Some out =>
      match read_at api with
      | None => ret MP3_ERR_INVALID_ARG
      | Some _ =>
          store_session_var out nullptr ;;;
          session <- new_session ;;
          match session with
          | None => ret MP3_ERR_OUT_OF_MEMORY
          | Some s =>
              ir <- call_init_impl host_api nullptr ;;
              if decide (ir.1 ≠ MP3_OK)
              then delete_session s ;;; ret ir.1
              else store_rust_session s ir.2 ;;;
                   store_session_var out (Some s) ;;;
                   ret MP3_OK
          end
      end
  | _, _, _ => ret MP3_ERR_INVALID_PTR
  end.

(** [mp3_session_run]: the pointer check, the [memset] of the record,
    the engine's run on [session->rust_session]. *)
Definition mp3_session_run (session : ptr) (out_info : ptr)
    : M mp3_result_t :=
  match session, out_info with
  | Some s, Some info =>
      memset_info info ;;;
      rs <- load_rust_session s ;;
      call_run_impl rs out_info
  | _, _ => ret MP3_ERR_INVALID_PTR
  end.

(** [mp3_session_deinit]: nothing for a null session; else the engine's
    teardown and [delete session]. *)
Definition mp3_session_deinit (session : ptr) : M unit :=
  match session with
  | None => ret tt
  | Some s =>
      rs <- load_rust_session s ;;
      call_deinit_impl rs ;;;
      delete_session s
  end.

(** [mp3_analyze]: the pointer check, then a session held in a local
    variable: initialised, run once, torn down. *)
Definition mp3_analyze (detector : ptr) (host_api : option mp3_host_api_t)
    (out_info : ptr) : M mp3_result_t :=
  match detector, host_api, out_info with
  | Some _, Some _, Some _ =>
      session_var <- push_local nullptr ;;
      init_result <- mp3_session_init detector host_api (Some session_var) ;;
      if decide (init_result ≠ MP3_OK)
      then pop_local session_var ;;; ret init_result
      else session <- load_session_var session_var ;;
           run_result <- mp3_session_run session out_info ;;
           mp3_session_deinit session ;;;
           pop_local session_var ;;;
           ret run_result
  | _, _, _ => ret MP3_ERR_INVALID_PTR
  end.

(** The one-step function in the words of its documentation
    ("init -> run -> deinit"): the three lifecycle calls made by a
    caller that keeps the session in a variable of its own, stopping
    at a failed initialisation. *)
Definition init_run_deinit (detector : ptr)
    (host_api : option mp3_host_api_t) (out_info : ptr) : M mp3_result_t :=
  fun w =>
    let var := fresh (dom (session_vars w)) in
    let w_var := set_session_vars <[var := nullptr]> w in
    match mp3_session_init detector host_api (Some var) w_var with
    | None => None
    | Some (MP3_OK, w_init) =>
        match session_vars w_init !! var with
        | None => None
        | Some session =>
            match mp3_session_run session out_info w_init with
            | None => None
            | Some (run_result, w_run) =>
                match mp3_session_deinit session w_run with
                | None => None
                | Some (_, w_end) =>
                    Some (run_result, set_session_vars (delete var) w_end)
                end
            end
        end
    | Some (init_error, w_init) =>
        Some (init_error, set_session_vars (delete var) w_init)
    end.

End Bridge.


(** ** The test host ([TestCppApp/src/main.cpp]) *)

(** [host_read_at]: seek, then read up to [requested] bytes.  [fseeko]
    receives the offset converted to the signed [off_t]; it fails on a
    negative one and on one beyond what the file system accepts, and the
    callback then returns [MP3_ERR_IO] with nothing read.  Seeking past
    the end of the file within that limit succeeds, and the read is
    empty. *)
Definition host_read_at : mp3_read_at_fn :=
  fun user_ctx offset requested =>
    match user_ctx ≫= fp with
    | None => (MP3_ERR_INVALID_PTR, [])
    | Some f =>
        if decide (2 ^ 63 ≤ offset ∨ max_offset f < offset)
        then (MP3_ERR_IO, [])
        else (MP3_OK, take requested (drop (Z.to_nat offset) (file_bytes f)))
    end.

(** The [mp3_host_api_t] that [analyzeFile] builds for an open file:
    zero-initialised, then [user_ctx], [source_size] and [read_at] set;
    the size is what [ftello] gives at the end of the file. *)
Definition file_host_api (f : FILE) : mp3_host_api_t :=
  let fileSize := Z.of_nat (length (file_bytes f)) in
  {| user_ctx := Some (FileCtx (Some f) fileSize);
     source_size := fileSize;
     read_at := Some host_read_at;
     alloc := None; free := None; log := None |}.

(** * The parsing engine

    The engine behind the weak symbols (the Rust library
    [mp3DurationDetectorRs]) is described by the specification only.
    This module follows its sections 3, 4 and 6. *)

Module SpecEngine.

(** Modelled from the spec: the result of an engine stage, a value or one
    of the error codes of section 7 ("each stage may short-circuit to an
    error outcome"); the engine's source is missing. *)
Inductive outcome (A : Type) : Type :=
  | Ok (a : A)
  | Err (e : mp3_result_t).
Arguments Ok {A} a.
Arguments Err {A} e.

(** Modelled from the spec: sequencing of the engine's stages, the first
    error ends the analysis. *)
Definition and_then {A B} (x : outcome A) (k : A -> outcome B) : outcome B :=
  match x with
  | Ok a => k a
  | Err e => Err e
  end.

Notation "x <-- c ;; k" := (and_then c (fun x => k))
  (at level 100, c at next level, right associativity).

(** Modelled from the spec: the policy values that section 4.2 ("a fixed
    lookahead window (policy value, e.g. 64 KiB)") and the open question
    of section 9 (a cap for the fallback scan) leave to the implementer:
    the number of byte positions the synchronizer tries, and the number
    of frames the fallback scan visits. *)
Record policy : Set := Policy {
  scan_window : nat;
  max_fallback_frames : nat
}.

(** Modelled from the spec: the example value of section 4.2, 64 KiB, for
    both policy values. *)
Definition example_policy : policy :=
  {| scan_window := Z.to_nat 65536; max_fallback_frames := Z.to_nat 65536 |}.

(** ** ByteSource adapter (sections 3 and 6) *)

(** Modelled from the spec: ByteSource, "read_at(offset, max_len) ->
    bytes_read_or_error" with a total size that is known or 0. *)
Record ByteSource : Set := Source {
  source_read_at : Z -> nat -> mp3_result_t * list byte;
  total_size : Z
}.

(** Modelled from the spec: the adapter over the host's read callback and
    [source_size]. *)
Definition byte_source (api : mp3_host_api_t) : option ByteSource :=
  match read_at api with
  | Some f => Some {| source_read_at := f (user_ctx api);
                      total_size := source_size api |}
  | None => None
  end.

(** Modelled from the spec: the value of a byte, 0 to 255. *)
Definition byte_val (b : byte) : Z := Z.of_N (Byte.to_N b).

(** Modelled from the spec: one read through the adapter; at most the
    requested number of bytes comes back, fewer at the end of the source,
    and a failure of the callback is the I/O error of section 7. *)
Definition read_bytes (src : ByteSource) (offset : Z) (n : nat)
    : outcome (list Z) :=
  match source_read_at src offset n with
  | (MP3_OK, bs) => Ok (byte_val <$> take n bs)
  | _ => Err MP3_ERR_IO
  end.

(** Modelled from the spec: a big-endian unsigned number from its bytes. *)
Definition big_endian (bs : list Z) : Z :=
  fold_left (fun acc b => acc * 256 + b) bs 0.

(** ** Tag skipper (section 4.1) *)

(** Modelled from the spec: the 4-byte synchsafe size of an ID3v2 header,
    "each size byte's high bit masked off", seven bits a byte. *)
Definition synchsafe (bs : list Z) : Z :=
  fold_left (fun acc b => acc * 128 + Z.land b 127) bs 0.

(** Modelled from the spec: the start of the audio region: past a leading
    ID3v2 tag ("ID3", version, flags, synchsafe size; 10 more bytes when
    the footer-present flag, bit 4 of the flags, is set), else 0. *)
Definition audio_start_offset (src : ByteSource) : outcome Z :=
  bs <-- read_bytes src 0 10 ;;
  match bs with
  | [i; d; three; _; _; flags; s0; s1; s2; s3] =>
      if decide (i = 73 /\ d = 68 /\ three = 51)
      then Ok (10 + synchsafe [s0; s1; s2; s3]
               + (if Z.testbit flags 4 then 10 else 0))
      else Ok 0
  | _ => Ok 0
  end.

(** Modelled from the spec: the end of the audio region: with a known
    total size, 128 bytes before the end when the last 128 bytes start
    with "TAG", else the total size; unresolved ([None]) when the total
    size is unknown.  A source shorter than 128 bytes has no room for
    the tag. *)
Definition audio_end_offset (src : ByteSource) : outcome (option Z) :=
  if decide (total_size src = 0) then Ok None
  else if decide (total_size src < 128) then Ok (Some (total_size src))
  else
    bs <-- read_bytes src (total_size src - 128) 128 ;;
    if decide (take 3 bs = [84; 65; 71])
    then Ok (Some (total_size src - 128))
    else Ok (Some (total_size src)).

(** ** Frame header decoder (section 4.3) *)

(** Modelled from the spec: "version {MPEG1, MPEG2, MPEG2_5}" of
    section 3. *)
Inductive mpeg_version : Set := MPEG1 | MPEG2 | MPEG2_5.

(** Modelled from the spec: "layer {I, II, III}" of section 3. *)
Inductive mpeg_layer : Set := LayerI | LayerII | LayerIII.

(** Modelled from the spec: "channel_mode {mono, stereo, joint_stereo,
    dual_channel}" of section 3. *)
Inductive channel_mode_t : Set := Stereo | JointStereo | DualChannel | Mono.

#[global] Instance mpeg_version_eq_dec : EqDecision mpeg_version.
Proof. solve_decision. Defined.
#[global] Instance mpeg_layer_eq_dec : EqDecision mpeg_layer.
Proof. solve_decision. Defined.
#[global] Instance channel_mode_eq_dec : EqDecision channel_mode_t.
Proof. solve_decision. Defined.

(** Modelled from the spec: FrameHeader of section 3. *)
Record FrameHeader : Set := Header {
  version : mpeg_version;
  layer : mpeg_layer;
  bitrate_bps : Z;
  sample_rate_hz : Z;
  channel_mode : channel_mode_t;
  padding_bit : Z;
  protection_bit : Z;
  frame_length_bytes : Z
}.

(** Modelled from the spec: the two version bits; 01 is reserved. *)
Definition version_of_bits (bits : Z) : option mpeg_version :=
  if decide (bits = 3) then Some MPEG1
  else if decide (bits = 2) then Some MPEG2
  else if decide (bits = 0) then Some MPEG2_5
  else None.

(** Modelled from the spec: the two layer bits; 00 is reserved. *)
Definition layer_of_bits (bits : Z) : option mpeg_layer :=
  if decide (bits = 3) then Some LayerI
  else if decide (bits = 2) then Some LayerII
  else if decide (bits = 1) then Some LayerIII
  else None.

(** Modelled from the spec: the two channel-mode bits. *)
Definition channel_mode_of_bits (bits : Z) : channel_mode_t :=
  if decide (bits = 0) then Stereo
  else if decide (bits = 1) then JointStereo
  else if decide (bits = 2) then DualChannel
  else Mono.

(** Modelled from the spec: the bitrate tables "keyed by (version,
    layer)", values of the MPEG specification in kbit/s; index 0 is the
    free format and index 15 is not in the table. *)
Definition bitrate_table (v : mpeg_version) (l : mpeg_layer) : list Z :=
  match v, l with
  | MPEG1, LayerI =>
      [0; 32; 64; 96; 128; 160; 192; 224; 256; 288; 320; 352; 384; 416; 448]
  | MPEG1, LayerII =>
      [0; 32; 48; 56; 64; 80; 96; 112; 128; 160; 192; 224; 256; 320; 384]
  | MPEG1, LayerIII =>
      [0; 32; 40; 48; 56; 64; 80; 96; 112; 128; 160; 192; 224; 256; 320]
  | _, LayerI =>
      [0; 32; 48; 56; 64; 80; 96; 112; 128; 144; 160; 176; 192; 224; 256]
  | _, _ =>
      [0; 8; 16; 24; 32; 40; 48; 56; 64; 80; 96; 112; 128; 144; 160]
  end.

(** Modelled from the spec: the bitrate of an index in bit/s; the free
    format (index 0) and the reserved index 1111 are rejected. *)
Definition bitrate_of_index (v : mpeg_version) (l : mpeg_layer) (index : Z)
    : option Z :=
  match bitrate_table v l !! Z.to_nat index with
  | Some kbps => if decide (kbps = 0) then None else Some (kbps * 1000)
  | None => None
  end.

(** Modelled from the spec: the sample rates of a version in Hz; index 11
    is reserved. *)
Definition sample_rate_table (v : mpeg_version) : list Z :=
  match v with
  | MPEG1 => [44100; 48000; 32000]
  | MPEG2 => [22050; 24000; 16000]
  | MPEG2_5 => [11025; 12000; 8000]
  end.

(** Modelled from the spec: the sample rate of an index; the reserved
    index 11 is not in the table. *)
Definition sample_rate_of_index (v : mpeg_version) (index : Z) : option Z :=
  sample_rate_table v !! Z.to_nat index.

(** Modelled from the spec: "frame_length_bytes for Layer I = (12 *
    bitrate / sample_rate + padding) * 4; for Layers II/III = 144 *
    bitrate / sample_rate + padding (MPEG1) or 72 * bitrate / sample_rate
    + padding (MPEG2/2.5).  Integer division, truncating." *)
Definition frame_length (v : mpeg_version) (l : mpeg_layer)
    (bitrate sample_rate padding : Z) : Z :=
  match l, v with
  | LayerI, _ => (12 * bitrate / sample_rate + padding) * 4
  | _, MPEG1 => 144 * bitrate / sample_rate + padding
  | _, _ => 72 * bitrate / sample_rate + padding
  end.

(** Modelled from the spec: section 4.5, "samples_per_frame = 384 (Layer
    I), 1152 (Layer II), 1152 (Layer III MPEG1) or 576 (Layer III
    MPEG2/2.5)". *)
Definition samples_per_frame (v : mpeg_version) (l : mpeg_layer) : Z :=
  match l, v with
  | LayerI, _ => 384
  | LayerII, _ => 1152
  | LayerIII, MPEG1 => 1152
  | LayerIII, _ => 576
  end.

(** Modelled from the spec: the 11-bit sync pattern at the top of two
    consecutive bytes. *)
Definition sync_pattern (b0 b1 : Z) : Prop := b0 = 255 /\ Z.land b1 224 = 224.

#[global] Instance sync_pattern_dec b0 b1 : Decision (sync_pattern b0 b1).
Proof. unfold sync_pattern. apply _. Defined.

(** Modelled from the spec: the decoder of "exactly 4 bytes into a
    FrameHeader or reject", bit layout MSB-first: 11 bits sync, 2 version,
    2 layer, 1 protection, 4 bitrate index, 2 sample-rate index, 1
    padding, 1 private, 2 channel mode. *)
Definition decode_header (bs : list Z) : option FrameHeader :=
  match bs with
  | [b0; b1; b2; b3] =>
      if decide (sync_pattern b0 b1) then
        v ← version_of_bits (Z.land (Z.shiftr b1 3) 3);
        l ← layer_of_bits (Z.land (Z.shiftr b1 1) 3);
        bitrate ← bitrate_of_index v l (Z.land (Z.shiftr b2 4) 15);
        rate ← sample_rate_of_index v (Z.land (Z.shiftr b2 2) 3);
        let padding := Z.land (Z.shiftr b2 1) 1 in
        let len := frame_length v l bitrate rate padding in
        if decide (4 <= len)
        then Some {| version := v; layer := l; bitrate_bps := bitrate;
                     sample_rate_hz := rate;
                     channel_mode :=
                       channel_mode_of_bits (Z.land (Z.shiftr b3 6) 3);
                     padding_bit := padding;
                     protection_bit := Z.land b1 1;
                     frame_length_bytes := len |}
        else None
      else None
  | _ => None
  end.

(** ** Frame synchronizer (section 4.2) *)

(** Modelled from the spec: the two-frame confirmation: "when feasible",
    that is when the source still has two bytes there, the position one
    frame length further must begin with the sync pattern. *)
Definition confirmed (next : list Z) : Prop :=
  match next with
  | [b0; b1] => sync_pattern b0 b1
  | _ => True
  end.

#[global] Instance confirmed_dec next : Decision (confirmed next).
Proof. unfold confirmed. destruct next as [|? [|? [|? ?]]]; apply _. Defined.

(** Modelled from the spec: the byte-by-byte scan for the first valid
    frame at or after [offset], over at most [window] positions; the end
    of the source or of the window is "no frame found". *)
Fixpoint find_frame (window : nat) (src : ByteSource) (offset : Z)
    : outcome (Z * FrameHeader) :=
  match window with
  | O => Err MP3_ERR_INVALID_FORMAT
  | S window' =>
      match read_bytes src offset 4 with
      | Err e => Err e
      | Ok bs =>
          if decide (length bs < 4)%nat then Err MP3_ERR_INVALID_FORMAT
          else
            match decode_header bs with
            | None => find_frame window' src (offset + 1)
            | Some h =>
                match read_bytes src (offset + frame_length_bytes h) 2 with
                | Err e => Err e
                | Ok next =>
                    if decide (confirmed next) then Ok (offset, h)
                    else find_frame window' src (offset + 1)
                end
            end
      end
  end.

(** ** VBR header extractor (section 4.4) *)

(** Modelled from the spec: "kind {Xing, VBRI, none}" of section 3,
    without the "none". *)
Inductive vbr_kind : Set := Xing | VBRI.

(** Modelled from the spec: VbrInfo of section 3; the kind "none" is the
    absence of the record. *)
Record VbrInfo : Set := Vbr {
  kind : vbr_kind;
  frame_count : option Z;
  byte_count : option Z;
  toc : option (list Z)
}.

(** Modelled from the spec: the offset of the Xing tag past the frame
    header, "17 bytes for MPEG1 stereo, 9 for MPEG1 mono / MPEG2 stereo,
    4 for MPEG2 mono". *)
Definition xing_offset (v : mpeg_version) (m : channel_mode_t) : Z :=
  match v, m with
  | MPEG1, Mono => 9
  | MPEG1, _ => 17
  | _, Mono => 4
  | _, _ => 9
  end.

(** Modelled from the spec: a field of [n] bytes at the head of the
    remaining tag bytes, big-endian; a tag that ends inside a field it
    declares is inconsistent. *)
Definition take_field (n : nat) (bs : list Z) : outcome (Z * list Z) :=
  if decide (length bs < n)%nat then Err MP3_ERR_INVALID_FORMAT
  else Ok (big_endian (take n bs), drop n bs).

(** Modelled from the spec: the Xing tag: signature "Xing" or "Info", a
    big-endian flags word, then the frame count if flag bit 0 is set, the
    byte count if bit 1, the 100-byte TOC if bit 2 (the quality indicator
    of bit 3 is ignored). *)
Definition parse_xing (bs : list Z) : outcome (option VbrInfo) :=
  if decide (take 4 bs = [88; 105; 110; 103] \/ take 4 bs = [73; 110; 102; 111])
  then
    fl <-- take_field 4 (drop 4 bs) ;;
    fc <-- (if Z.testbit fl.1 0
            then f <-- take_field 4 fl.2 ;; Ok (Some f.1, f.2)
            else Ok (None, fl.2)) ;;
    bc <-- (if Z.testbit fl.1 1
            then f <-- take_field 4 fc.2 ;; Ok (Some f.1, f.2)
            else Ok (None, fc.2)) ;;
    tc <-- (if Z.testbit fl.1 2
            then if decide (length bc.2 < 100)%nat
                 then Err MP3_ERR_INVALID_FORMAT
                 else Ok (Some (take 100 bc.2))
            else Ok None) ;;
    Ok (Some {| kind := Xing; frame_count := fc.1; byte_count := bc.1;
                toc := tc |})
  else Ok None.

(** Modelled from the spec: the VBRI tag: signature "VBRI", then version,
    delay and quality (two bytes each), byte count and frame count (four
    bytes each); the seek table is ignored. *)
Definition parse_vbri (bs : list Z) : outcome (option VbrInfo) :=
  if decide (take 4 bs = [86; 66; 82; 73])
  then
    bc <-- take_field 4 (drop 10 bs) ;;
    fc <-- take_field 4 bc.2 ;;
    Ok (Some {| kind := VBRI; frame_count := Some fc.1;
                byte_count := Some bc.1; toc := None |})
  else Ok None.

(** Modelled from the spec: the extractor on the first valid frame: the
    Xing tag at its offset past the 4-byte header, else the VBRI tag 36
    bytes past the header, else none; the first match wins. *)
Definition extract_vbr (src : ByteSource) (offset : Z) (h : FrameHeader)
    : outcome (option VbrInfo) :=
  xs <-- read_bytes src (offset + 4 + xing_offset (version h) (channel_mode h))
                   120 ;;
  x <-- parse_xing xs ;;
  match x with
  | Some info => Ok (Some info)
  | None =>
      vs <-- read_bytes src (offset + 4 + 36) 18 ;;
      parse_vbri vs
  end.

(** ** Duration estimator (section 4.5) *)

(** Modelled from the spec: the fallback scan, "linearly scan every frame
    from audio_start to end-of-source ..., summing frame_count and
    byte_count"; it stops where no further frame header is found, and
    gives up at the policy's cap. *)
Fixpoint count_frames (cap : nat) (src : ByteSource) (offset : Z)
    (frames bytes : Z) : outcome (Z * Z) :=
  match cap with
  | O => Err MP3_ERR_INVALID_FORMAT
  | S cap' =>
      match read_bytes src offset 4 with
      | Err e => Err e
      | Ok bs =>
          match decode_header bs with
          | None => Ok (frames, bytes)
          | Some h =>
              count_frames cap' src (offset + frame_length_bytes h)
                           (frames + 1) (bytes + frame_length_bytes h)
          end
      end
  end.

(** Modelled from the spec: the formula of the rows with a frame count,
    "frame_count * samples_per_frame / sample_rate_hz * 1000 ms", with
    the average bitrate "bytes * 8 / duration_s"; the formulas are exact
    and the result is cut to whole units at the end.  A zero sample rate
    or frame count is invalid. *)
Definition duration_of_frames (h : FrameHeader) (frames : Z)
    (bytes : option Z) : outcome (Z * Z) :=
  if decide (sample_rate_hz h = 0 \/ frames = 0)
  then Err MP3_ERR_INVALID_FORMAT
  else
    let samples := frames * samples_per_frame (version h) (layer h) in
    Ok (samples * 1000 / sample_rate_hz h,
        match bytes with
        | Some n => n * 8 * sample_rate_hz h / samples
        | None => bitrate_bps h
        end).

(** Modelled from the spec: the formula of the rows with a byte count
    only, bytes "* 8 / bitrate_bps * 1000 ms", exact and cut to whole
    milliseconds at the end; the bitrate is that of the first frame. *)
Definition duration_of_bytes (h : FrameHeader) (bytes : Z) : Z * Z :=
  (bytes * 8 * 1000 / bitrate_bps h, bitrate_bps h).

(** Modelled from the spec: the policy table of section 4.5, giving the
    duration in milliseconds and the reported bitrate.  A tag with
    neither count says nothing about the length and is treated like no
    tag. *)
Definition estimate_duration (p : policy) (src : ByteSource)
    (audio_start : Z) (audio_end : option Z) (first : Z) (h : FrameHeader)
    (vbr : option VbrInfo) : outcome (Z * Z) :=
  match vbr ≫= frame_count, vbr ≫= byte_count, audio_end with
  | Some frames, bytes, _ => duration_of_frames h frames bytes
  | None, Some bytes, _ => Ok (duration_of_bytes h bytes)
  | None, None, Some e => Ok (duration_of_bytes h (e - audio_start))
  | None, None, None =>
      c <-- count_frames (max_fallback_frames p) src first 0 0 ;;
      duration_of_frames h c.1 (Some c.2)
  end.

(** ** Result assembler (section 4.6) *)

(** Modelled from the spec: the channel count "per channel-mode bits",
    1 for mono and 2 for the other modes. *)
Definition channel_count (m : channel_mode_t) : Z :=
  match m with
  | Mono => 1
  | _ => 2
  end.

(** Modelled from the spec: the output record; "valid = 1 only when
    duration, sample rate, and channel count are all successfully derived
    and non-degenerate", bits per sample fixed at 16, the data size the
    extent of the audio region.  A degenerate result is an invalid
    format, one that does not fit the 32-bit fields an internal error,
    and no record is filled in then. *)
Definition assemble (h : FrameHeader) (duration bitrate size : Z)
    : mp3_result_t * mp3_audio_info_t :=
  if decide (duration <= 0 \/ sample_rate_hz h <= 0) then
    (MP3_ERR_INVALID_FORMAT, zero_info)
  else if decide (2 ^ 32 <= duration \/ 2 ^ 32 <= bitrate) then
    (MP3_ERR_INTERNAL, zero_info)
  else
    (MP3_OK,
     {| sample_rate := sample_rate_hz h;
        channels := channel_count (channel_mode h);
        bits_per_sample := 16;
        bitrate := bitrate;
        duration_ms := duration;
        data_size := size;
        valid := 1 |}).

(** ** The analysis *)

(** Modelled from the spec: the control flow of section 2: tag skipper,
    frame synchronizer with the header decoder, VBR header extractor,
    duration estimator; the value is what the result assembler needs. *)
Definition analyze_source (p : policy) (src : ByteSource)
    : outcome (FrameHeader * Z * Z * Z) :=
  audio_start <-- audio_start_offset src ;;
  audio_end <-- audio_end_offset src ;;
  frame <-- find_frame (scan_window p) src audio_start ;;
  vbr <-- extract_vbr src frame.1 frame.2 ;;
  d <-- estimate_duration p src audio_start audio_end frame.1 frame.2 vbr ;;
  Ok (frame.2, d.1, d.2,
      match audio_end with
      | Some e => e - audio_start
      | None => 0
      end).

(** Modelled from the spec: one analysis: the result code and the output
    record, zeroed with [valid = 0] on every failure ("no
    partial/degraded AudioInfo is ever reported as valid"). *)
Definition analyze (p : policy) (src : ByteSource)
    : mp3_result_t * mp3_audio_info_t :=
  match analyze_source p src with
  | Ok (h, duration, bitrate, size) => assemble h duration bitrate size
  | Err e => (e, zero_info)
  end.

(** ** Behind the weak symbols *)

(** Modelled from the spec: the engine's sessions (section 6, "one
    initialization (supplies host capabilities), one or more analysis
    runs per initialized session, one teardown"): each holds the host
    API it was initialised with.  The optional allocator and logger are
    never needed and not called. *)
Abbreviation engine_state := (gmap addr mp3_host_api_t).

(** Modelled from the spec: initialisation, with the error taxonomy of
    section 7 for null arguments and a missing read callback; the new
    session gets an unused handle. *)
Definition session_init (host_api : option mp3_host_api_t)
    (out_rust_session : option ptr) (e : engine_state)
    : mp3_result_t * option ptr * engine_state :=
  match host_api, out_rust_session with
  | Some api, Some _ =>
      match read_at api with
      | Some _ =>
          let rs := fresh (dom e) in
          (MP3_OK, Some (Some rs), <[rs := api]> e)
      | None => (MP3_ERR_INVALID_ARG, out_rust_session, e)
      end
  | _, _ => (MP3_ERR_INVALID_PTR, out_rust_session, e)
  end.

(** Modelled from the spec: the ByteSource of a session handle. *)
Definition session_source (e : engine_state) (rust_session : ptr)
    : option ByteSource :=
  rs ← rust_session; api ← e !! rs; byte_source api.

(** Modelled from the spec: one analysis run of a session into the
    caller's record; a null record or an unknown handle is an invalid
    pointer. *)
Definition session_run (p : policy) (rust_session : ptr)
    (out_info : option mp3_audio_info_t) (e : engine_state)
    : mp3_result_t * option mp3_audio_info_t * engine_state :=
  match out_info, session_source e rust_session with
  | Some _, Some src =>
      let '(r, info) := analyze p src in (r, Some info, e)
  | _, _ => (MP3_ERR_INVALID_PTR, out_info, e)
  end.

(** Modelled from the spec: teardown, which gives the session up whether
    or not an analysis ran. *)
Definition session_deinit (rust_session : ptr) (e : engine_state)
    : engine_state :=
  match rust_session with
  | Some rs => delete rs e
  | None => e
  end.

(** Modelled from the spec: the engine as the implementation of the weak
    symbols, for a choice of the policy values. *)
Definition engine (p : policy) : Engine engine_state := {|
  mp3_rust_session_init_impl := session_init;
  mp3_rust_session_run_impl := session_run p;
  mp3_rust_session_deinit_impl := session_deinit
|}.

End SpecEngine.

(** ** Outcomes of the lifecycle calls, in closed form *)

Section Outcomes.
Context {E : Type} {impl : Engine E}.
Implicit Types (w : world E).

(** Whether [new (std::nothrow)] can still deliver a session object. *)
Definition has_room w : Prop := (size (heap w) < heap_limit w)%nat.

#[global] Instance has_room_dec w : Decision (has_room w).
Proof. unfold has_room. apply _. Defined.

(** What [mp3_session_init] does once its argument checks have passed. *)
Definition init_outcome (api : mp3_host_api_t) (out : addr) w
    : mp3_result_t * world E :=
  if decide (has_room w) then
    let s := fresh (dom (heap w)) in
    let '(r, rs, e) :=
      mp3_rust_session_init_impl (Some api) (Some nullptr) (rust w) in
    if decide (r ≠ MP3_OK)
    then (r, World (g_detector w) (heap w) (heap_limit w)
                   (<[out := nullptr]> (session_vars w)) (info_vars w) e)
    else (MP3_OK,
          World (g_detector w) (<[s := Session (default nullptr rs)]> (heap w))
                (heap_limit w) (<[out := Some s]> (session_vars w))
                (info_vars w) e)
  else (MP3_ERR_OUT_OF_MEMORY,
        World (g_detector w) (heap w) (heap_limit w)
              (<[out := nullptr]> (session_vars w)) (info_vars w) (rust w)).

(** What [mp3_analyze] does once its argument checks have passed and
    the read callback is there: the session object and the local
    session variable are gone again, the record holds what the engine
    made of the zeroed one. *)
Definition analyze_outcome (api : mp3_host_api_t) (o : addr) w
    : mp3_result_t * world E :=
  if decide (has_room w) then
    let '(r, rs, e1) :=
      mp3_rust_session_init_impl (Some api) (Some nullptr) (rust w) in
    if decide (r ≠ MP3_OK)
    then (r, World (g_detector w) (heap w) (heap_limit w) (session_vars w)
                   (info_vars w) e1)
    else
      let '(r2, info, e2) :=
        mp3_rust_session_run_impl (default nullptr rs) (Some zero_info) e1 in
      (r2, World (g_detector w) (heap w) (heap_limit w) (session_vars w)
                 (<[o := default zero_info info]> (info_vars w))
                 (mp3_rust_session_deinit_impl (default nullptr rs) e2))
  else (MP3_ERR_OUT_OF_MEMORY, w).

(** An engine whose sessions leave nothing behind: a refused
    initialisation changes nothing, and initialisation, one run and
    teardown bring the engine's state back to where it was. *)
Definition engine_session_scoped : Prop :=
  forall h e r rs e1,
    mp3_rust_session_init_impl h (Some nullptr) e = (r, rs, e1) ->
    (r ≠ MP3_OK -> e1 = e) /\
    (r = MP3_OK ->
     forall info r2 info2 e2,
       mp3_rust_session_run_impl (default nullptr rs) info e1 = (r2, info2, e2) ->
       mp3_rust_session_deinit_impl (default nullptr rs) e2 = e).

(** An engine that never marks a record valid when its run fails. *)
Definition engine_failure_invalid : Prop :=
  forall rs e r info e2,
    mp3_rust_session_run_impl rs (Some zero_info) e = (r, Some info, e2) ->
    r ≠ MP3_OK -> valid info = 0.

(** A computation that leaves [g_detector] as it found it. *)
Definition keeps_detector {A} (c : M A) : Prop :=
  forall w a w', c w = Some (a, w') -> g_detector w' = g_detector w.

End Outcomes.

Arguments keeps_detector E {A} c.

(** ** Sample worlds *)

(** A record left over from an earlier, successful analysis. *)
Definition stale_info : mp3_audio_info_t :=
  {| sample_rate := 44100; channels := 2; bits_per_sample := 16;
     bitrate := 128000; duration_ms := 26; data_size := 417; valid := 1 |}.

(** A caller with a record at address 5 holding [stale_info], a session
    variable at address 9 still holding the dead handle 7, no live
    session and room for four. *)
Definition sample_world {E} (e : E) : world E :=
  {| g_detector := Detector 0;
     heap := ∅;
     heap_limit := 4;
     session_vars := {[ 9%positive := Some 7%positive ]};
     info_vars := {[ 5%positive := stale_info ]};
     rust := e |}.

(** The sample world with one live session object at address 3. *)
Definition sample_world_live : world unit :=
  set_heap <[3%positive := Session None]> (sample_world tt).

(** A host API without the read callback, and one with nothing but it. *)
Definition api_without_read_at : mp3_host_api_t :=
  {| user_ctx := None; source_size := 0; read_at := None;
     alloc := None; free := None; log := None |}.

Definition api_read_only (f : mp3_read_at_fn) : mp3_host_api_t :=
  {| user_ctx := None; source_size := 0; read_at := Some f;
     alloc := None; free := None; log := None |}.

(** A caller as [analyzeFile] is one: the record at address 5 zeroed
    before the call, no live session and room for four. *)
Definition zeroed_world {E} (e : E) : world E :=
  {| g_detector := Detector 0;
     heap := ∅;
     heap_limit := 4;
     session_vars := ∅;
     info_vars := {[ 5%positive := zero_info ]};
     rust := e |}.

(** ** Sample files and streams *)

(** An open file with the bytes [bytes], on a file system that accepts
    offsets up to 4096 bytes past its end. *)
Definition file_of (bytes : list byte) : FILE :=
  {| file_bytes := bytes; seek_slack := 4096 |}.

Definition empty_file : FILE := file_of [].

(** An MPEG1 Layer III frame of 128 kbit/s at 44100 Hz, stereo, without
    padding and with an all-zero body: 417 bytes. *)
Definition plain_frame : list byte :=
  [xff; xfb; x90; x00] ++ repeat x00 413.

(** [n] such frames one after the other. *)
Definition plain_stream (n : nat) : list byte := concat (repeat plain_frame n).

(** An MPEG1 Layer III frame of 128 kbit/s at 48000 Hz, whose exact
    length is the whole number 384. *)
Definition exact_frame : list byte :=
  [xff; xfb; x94; x00] ++ repeat x00 380.

Definition exact_stream (n : nat) : list byte := concat (repeat exact_frame n).

(** A world of the build with the engine: no session, room for four. *)
Definition engine_world : world SpecEngine.engine_state :=
  {| g_detector := Detector 0; heap := ∅; heap_limit := 4;
     session_vars := ∅; info_vars := ∅; rust := ∅ |}.


(** * The rest of the sources

    [mp3_error_string] of [mp3_lib.cpp], and the test application
    [TestCppApp/src/main.cpp] around [host_read_at]: [isMp3],
    [analyzeFile] and [main]. *)

From stdpp Require Import sorting.
From Stdlib Require Strings.String Strings.Ascii.
Import String.StringSyntax Ascii.AsciiSyntax.
Delimit Scope string_scope with string.
Delimit Scope char_scope with char.
Local Open Scope Z_scope.

(** [mp3_error_string]: the [switch] over the value of the result code;
    a value outside the enumeration takes the [default] branch. *)
Definition mp3_error_string (result : Z) : String.string :=
  match result with
  | 0%Z => "OK"%string
  | 1%Z => "Invalid pointer"%string
  | 2%Z => "Invalid argument"%string
  | 3%Z => "Out of memory"%string
  | 4%Z => "I/O error"%string
  | 5%Z => "Invalid MP3 format"%string
  | 6%Z => "Rust MP3 blob is not linked"%string
  | 7%Z => "Internal error"%string
  | 255%Z => "Unknown error"%string
  | _ => "Unknown error code"%string
  end.

(** A world whose allocator has nothing left to give. *)
Definition full_world {E} (e : E) : world E :=
  {| g_detector := Detector 0; heap := ∅; heap_limit := 0;
     session_vars := ∅; info_vars := ∅; rust := e |}.

Module TestCppApp.

(** [::tolower] in the C locale: the letters A to Z go to a to z, every
    other character stays. *)
Definition tolower (c : Ascii.ascii) : Ascii.ascii :=
  let n := Ascii.N_of_ascii c in
  if decide (65 <= n <= 90)%N then Ascii.ascii_of_N (n + 32) else c.

(** [std::transform(ext.begin(), ext.end(), ext.begin(), ::tolower)]. *)
Fixpoint transform_tolower (s : String.string) : String.string :=
  match s with
  | String.EmptyString => String.EmptyString
  | String.String c rest => String.String (tolower c) (transform_tolower rest)
  end.

(** [isMp3], on the string that [p.extension().string()] delivers. *)
Definition isMp3 (extension : String.string) : bool :=
  String.eqb (transform_tolower extension) ".mp3"%string.

(** [TestResult]. *)
Record TestResult : Set := Result {
  name : String.string;
  ok : bool;
  code : mp3_result_t;
  info : mp3_audio_info_t
}.

(** What [main] meets in the audio directory: an entry with its file
    name, the extension of that name, what [entry.is_regular_file()]
    gives, and what [fopen] gives for it, the open file or null.  A call
    of [std::filesystem] reports an error of the operating system by
    throwing [filesystem_error]: that is [None] here and below. *)
Record dir_entry : Set := Entry {
  entry_name : String.string;
  entry_extension : String.string;
  is_regular_file : option bool;
  entry_file : option FILE
}.

(** The path that [main] is given, as the calls of [std::filesystem] see
    it: [fs::exists], [fs::is_directory], and the entries that
    [fs::directory_iterator] walks through, [None] when making or
    advancing the iterator throws. *)
Record directory : Set := Directory {
  fs_exists : option bool;
  fs_is_directory : option bool;
  directory_iterator : option (list dir_entry)
}.

(** How [main] ends: it returns an exit status, or an exception that
    nothing catches leaves it and [std::terminate] aborts the process. *)
Inductive termination : Set :=
  | Exit (status : Z)
  | Terminate.

Section Host.
Context {E : Type} {impl : Engine E}.

Notation "x <- c ;; k" := (bind c (fun x => k))
  (at level 100, c at next level, right associativity).
Notation "c ;;; k" := (bind c (fun _ => k))
  (at level 100, right associativity).

(** A local [mp3_audio_info_t] (here [r.info]), its content, and the end
    of its scope. *)
Definition push_local_info (v : mp3_audio_info_t) : @M E addr :=
  fun w => let p := fresh (dom (info_vars w)) in
           Some (p, set_info_vars <[p := v]> w).
Definition load_info (p : addr) : @M E mp3_audio_info_t :=
  fun w => match info_vars w !! p with
           | Some v => Some (v, w)
           | None => None
           end.
Definition pop_local_info (p : addr) : @M E unit :=
  modify (set_info_vars (delete p)).

(** [analyzeFile]: the result starts as an I/O failure with a zeroed
    record; when the file opens, [mp3_analyze] runs over its bytes with
    the host API of [file_host_api], and [ok] is set when the code is
    [MP3_OK] and the record's valid flag is not 0. *)
Definition analyzeFile (detector : ptr) (filename : String.string)
    (file : option FILE) : @M E TestResult :=
  r_info <- push_local_info zero_info ;;
  match file with
  | None =>
      pop_local_info r_info ;;;
      ret {| name := filename; ok := false; code := MP3_ERR_IO;
             info := zero_info |}
  | Some fp =>
      r_code <- mp3_analyze detector (Some (file_host_api fp))
                            (Some r_info) ;;
      v <- load_info r_info ;;
      pop_local_info r_info ;;;
      ret {| name := filename;
             ok := bool_decide (r_code = MP3_OK) && negb (valid v =? 0);
             code := r_code;
             info := v |}
  end.

(** The loop of [main] over the collected files: each is analysed and
    counted as passed or failed.  The lines it prints are left out. *)
Fixpoint run_files (detector : ptr) (files : list dir_entry)
    (passed failed : Z) : @M E (Z * Z) :=
  match files with
  | [] => ret (passed, failed)
  | f :: rest =>
      r <- analyzeFile detector (entry_name f) (entry_file f) ;;
      if ok r then run_files detector rest (passed + 1) failed
      else run_files detector rest passed (failed + 1)
  end.

(** The order of [std::sort] on the paths of one directory: that of the
    file names, which differ from each other. *)
Definition path_le (a b : dir_entry) : Prop :=
  String.leb (entry_name a) (entry_name b) = true.

#[global] Instance path_le_dec a b : Decision (path_le a b).
Proof. unfold path_le. apply _. Defined.

(** The loop of [main] over the directory: the regular files with an MP3
    extension are collected, in the order of the iterator.  The loop is
    left by the exception when [is_regular_file] throws for an entry. *)
Fixpoint collect (entries : list dir_entry) : option (list dir_entry) :=
  match entries with
  | [] => Some []
  | e :: rest =>
      match is_regular_file e with
      | None => None
      | Some regular =>
          match collect rest with
          | None => None
          | Some files =>
              Some (if regular && isMp3 (entry_extension e)
                    then e :: files else files)
          end
      end
  end.

(** [main], from the directory to the way it ends.  Status 1 when the
    path does not exist or is no directory; else the files are collected
    and sorted; status 0 when there is none; else they are run with the
    singleton detector, and the status is 1 when a file failed.  A call
    of [std::filesystem] that throws ends [main] at once, before any file
    is analysed.  The lines it prints are left out, and so is the failure
    of the containers to allocate memory. *)
Definition main (dir : directory) : @M E termination :=
  match fs_exists dir with
  | None => ret Terminate
  | Some false => ret (Exit 1)
  | Some true =>
      match fs_is_directory dir with
      | None => ret Terminate
      | Some false => ret (Exit 1)
      | Some true =>
          match directory_iterator dir ≫= collect with
          | None => ret Terminate
          | Some found =>
              match merge_sort path_le found with
              | [] => ret (Exit 0)
              | files =>
                  detector <- mp3_detector_instance ;;
                  counts <- run_files detector files 0 0 ;;
                  ret (Exit (if decide (counts.2 > 0) then 1 else 0))
              end
          end
      end
  end.

End Host.

End TestCppApp.
(** * Properties of the bridge *)

Lemma fresh_unused {V} (m : gmap addr V) : m !! fresh (dom m) = None.
Proof. apply not_elem_of_dom, is_fresh. Qed.

(** Unfolds the primitive memory operations of the monad. *)
Ltac primitives :=
  unfold bind, ret, modify, store_session_var, load_session_var,
    push_local, pop_local, memset_info, new_session, delete_session,
    load_rust_session, store_rust_session, call_init_impl, call_run_impl,
    call_deinit_impl, set_heap, set_session_vars, set_info_vars, set_rust;
  simpl.

(** Runs bridge code on a world as far as the lookups are decided. *)
Ltac run_bridge :=
  repeat progress (primitives; rewrite ?lookup_insert_eq).

Section BridgeFacts.
Context {E : Type} {impl : Engine E}.
Implicit Types (w : world E) (d out o s : addr) (api : mp3_host_api_t).

Lemma mp3_session_init_checked d api f out w :
  read_at api = Some f ->
  mp3_session_init (Some d) (Some api) (Some out) w
  = Some (init_outcome api out w).
Proof.
  intros Hf. unfold mp3_session_init, init_outcome. rewrite Hf.
  unfold has_room. primitives.
  destruct (decide (size (heap w) < heap_limit w)%nat) as [Hroom|Hfull];
    simpl; [|reflexivity].
  destruct (mp3_rust_session_init_impl (Some api) (Some None) (rust w))
    as [[r rs] e] eqn:Himpl; simpl.
  destruct (decide (r ≠ MP3_OK)) as [Hr|Hr]; simpl.
  - rewrite lookup_insert_eq; simpl.
    rewrite delete_insert_id by apply fresh_unused. reflexivity.
  - rewrite lookup_insert_eq; simpl.
    rewrite !insert_insert_eq. reflexivity.
Qed.

Lemma world_eta w :
  World (g_detector w) (heap w) (heap_limit w) (session_vars w)
        (info_vars w) (rust w) = w.
Proof. destruct w; reflexivity. Qed.

Lemma mp3_analyze_checked d api f o w :
  read_at api = Some f ->
  mp3_analyze (Some d) (Some api) (Some o) w
  = Some (analyze_outcome api o w).
Proof.
  intros Hf. unfold mp3_analyze, analyze_outcome.
  unfold bind at 1, push_local at 1. cbv beta zeta.
  unfold bind at 1.
  rewrite (mp3_session_init_checked _ _ f) by exact Hf.
  unfold init_outcome, has_room.
  set (var := fresh (dom (session_vars w))).
  assert (Hvar : session_vars w !! var = None) by apply fresh_unused.
  primitives.
  destruct (decide (size (heap w) < heap_limit w)%nat) as [Hroom|Hfull];
    simpl.
  - destruct (mp3_rust_session_init_impl (Some api) (Some None) (rust w))
      as [[r rs] e1] eqn:Himpl; simpl.
    destruct (decide (r ≠ MP3_OK)) as [Hr|Hr]; simpl.
    + destruct (decide (r ≠ MP3_OK)) as [_|[]]; [|exact Hr]. primitives.
      rewrite insert_insert_eq, delete_insert_id by exact Hvar.
      reflexivity.
    + rewrite insert_insert_eq. run_bridge.
      destruct (mp3_rust_session_run_impl (default None rs)
                  (Some zero_info) e1) as [[r2 info] e2]; simpl.
      run_bridge.
      rewrite !insert_insert_eq.
      rewrite !delete_insert_id by (exact Hvar || apply fresh_unused).
      reflexivity.
  - rewrite insert_insert_eq, delete_insert_id by exact Hvar.
    rewrite world_eta. reflexivity.
Qed.

Lemma mp3_analyze_no_read_at d api o w :
  read_at api = None ->
  mp3_analyze (Some d) (Some api) (Some o) w
  = Some (MP3_ERR_INVALID_ARG, w).
Proof.
  intros Hf. unfold mp3_analyze, mp3_session_init. rewrite Hf. primitives.
  rewrite delete_insert_id by apply fresh_unused.
  rewrite world_eta. reflexivity.
Qed.

End BridgeFacts.

(** * The lifecycle API, whatever engine is linked *)

Section Lifecycle.
Context {E : Type} {impl : Engine E}.
Implicit Types (w : world E) (d out o s : addr) (api : mp3_host_api_t).

Lemma mp3_session_init_null (detector : ptr)
    (host_api : option mp3_host_api_t) (out_session : ptr) w :
  detector = None \/ host_api = None \/ out_session = None ->
  mp3_session_init detector host_api out_session w
  = Some (MP3_ERR_INVALID_PTR, w).
Proof.
  intros [-> | [-> | ->]]; unfold mp3_session_init.
  - reflexivity.
  - destruct detector; reflexivity.
  - destruct detector, host_api; reflexivity.
Qed.

Lemma mp3_session_run_null (session out_info : ptr) w :
  session = None \/ out_info = None ->
  mp3_session_run session out_info w = Some (MP3_ERR_INVALID_PTR, w).
Proof.
  intros [-> | ->]; unfold mp3_session_run.
  - reflexivity.
  - destruct session; reflexivity.
Qed.

Lemma mp3_analyze_null (detector : ptr) (host_api : option mp3_host_api_t)
    (out_info : ptr) w :
  detector = None \/ host_api = None \/ out_info = None ->
  mp3_analyze detector host_api out_info w = Some (MP3_ERR_INVALID_PTR, w).
Proof.
  intros [-> | [-> | ->]]; unfold mp3_analyze.
  - reflexivity.
  - destruct detector; reflexivity.
  - destruct detector, host_api; reflexivity.
Qed.

(** Every argument shape of [mp3_session_init] falls under one of three
    closed forms. *)
Lemma mp3_session_init_cases (detector : ptr)
    (host_api : option mp3_host_api_t) out w :
  mp3_session_init detector host_api (Some out) w
  = Some (MP3_ERR_INVALID_PTR, w)
  \/ mp3_session_init detector host_api (Some out) w
     = Some (MP3_ERR_INVALID_ARG, w)
  \/ exists d api f,
       detector = Some d /\ host_api = Some api /\ read_at api = Some f /\
       mp3_session_init detector host_api (Some out) w
       = Some (init_outcome api out w).
Proof.
  destruct detector as [d|]; [|left; reflexivity].
  destruct host_api as [api|]; [|left; reflexivity].
  destruct (read_at api) as [f|] eqn:Hf.
  - right; right. exists d, api, f. repeat split; [exact Hf|].
    apply (mp3_session_init_checked _ _ f), Hf.
  - right; left. unfold mp3_session_init. rewrite Hf. reflexivity.
Qed.

(** Likewise for [mp3_analyze]. *)
Lemma mp3_analyze_cases (detector : ptr) (host_api : option mp3_host_api_t)
    o w :
  mp3_analyze detector host_api (Some o) w = Some (MP3_ERR_INVALID_PTR, w)
  \/ mp3_analyze detector host_api (Some o) w = Some (MP3_ERR_INVALID_ARG, w)
  \/ exists d api f,
       detector = Some d /\ host_api = Some api /\ read_at api = Some f /\
       mp3_analyze detector host_api (Some o) w
       = Some (analyze_outcome api o w).
Proof.
  destruct detector as [d|]; [|left; reflexivity].
  destruct host_api as [api|]; [|left; reflexivity].
  destruct (read_at api) as [f|] eqn:Hf.
  - right; right. exists d, api, f. repeat split; [exact Hf|].
    apply (mp3_analyze_checked _ _ f), Hf.
  - right; left. apply mp3_analyze_no_read_at, Hf.
Qed.

(** The closed form of a run on a live session. *)
Lemma mp3_session_run_live s o w obj :
  heap w !! s = Some obj ->
  mp3_session_run (Some s) (Some o) w
  = Some (let '(r, info, e) :=
            mp3_rust_session_run_impl (rust_session obj) (Some zero_info)
                                      (rust w) in
          (r, World (g_detector w) (heap w) (heap_limit w) (session_vars w)
                    (<[o := default zero_info info]> (info_vars w)) e)).
Proof.
  intros Hs. unfold mp3_session_run. primitives. rewrite Hs; simpl.
  rewrite lookup_insert_eq.
  destruct (mp3_rust_session_run_impl (rust_session obj) (Some zero_info)
              (rust w)) as [[r info] e]; simpl.
  rewrite insert_insert_eq. reflexivity.
Qed.

Lemma mp3_session_run_dead s o w :
  heap w !! s = None -> mp3_session_run (Some s) (Some o) w = None.
Proof. intros Hs. unfold mp3_session_run. primitives. rewrite Hs. reflexivity. Qed.

(** The closed form of a teardown. *)
Lemma mp3_session_deinit_live s w obj :
  heap w !! s = Some obj ->
  mp3_session_deinit (Some s) w
  = Some (tt, World (g_detector w) (delete s (heap w)) (heap_limit w)
                    (session_vars w) (info_vars w)
                    (mp3_rust_session_deinit_impl (rust_session obj) (rust w))).
Proof.
  intros Hs. unfold mp3_session_deinit. primitives. rewrite Hs; simpl.
  rewrite Hs. reflexivity.
Qed.

(** C3.  A null required pointer makes [mp3_session_init] (detector,
    host_api, out_session), [mp3_session_run] (session, out_info) and
    [mp3_analyze] (detector, host_api, out_info) return
    [MP3_ERR_INVALID_PTR], whose value is 1, and nothing is analysed: the
    world, the engine's state included, is what it was. *)
Theorem null_pointer_is_invalid_ptr (detector : ptr)
    (host_api : option mp3_host_api_t) (out_session session out_info : ptr) w :
  (detector = None \/ host_api = None \/ out_session = None ->
   mp3_session_init detector host_api out_session w
   = Some (MP3_ERR_INVALID_PTR, w)) /\
  (session = None \/ out_info = None ->
   mp3_session_run session out_info w = Some (MP3_ERR_INVALID_PTR, w)) /\
  (detector = None \/ host_api = None \/ out_info = None ->
   mp3_analyze detector host_api out_info w
   = Some (MP3_ERR_INVALID_PTR, w)) /\
  result_value MP3_ERR_INVALID_PTR = 1.
Proof.
  repeat split.
  - apply mp3_session_init_null.
  - apply mp3_session_run_null.
  - apply mp3_analyze_null.
Qed.


(** C7.  Teardown with a null session pointer changes nothing.  Teardown
    of the session that a successful [mp3_session_init] has just
    delivered, with no run in between, is defined and gives the session
    object back.  On any live session teardown is defined; its result
    carries no error code. *)
Theorem session_deinit_is_safe w :
  mp3_session_deinit None w = Some (tt, w) /\
  (forall detector host_api out w1,
     mp3_session_init detector host_api (Some out) w = Some (MP3_OK, w1) ->
     exists s w2,
       session_vars w1 !! out = Some (Some s) /\
       mp3_session_deinit (Some s) w1 = Some (tt, w2) /\
       heap w2 = heap w) /\
  (forall s, is_Some (heap w !! s) ->
     exists w2, mp3_session_deinit (Some s) w = Some (tt, w2) /\
                heap w2 = delete s (heap w)).
Proof.
  split; [reflexivity|]. split.
  - intros detector host_api out w1 Hinit.
    destruct (mp3_session_init_cases detector host_api out w)
      as [H | [H | (d & api & f & _ & _ & _ & H)]];
      rewrite H in Hinit; try discriminate.
    unfold init_outcome in Hinit.
    destruct (decide (has_room w)); [|discriminate].
    destruct (mp3_rust_session_init_impl (Some api) (Some None) (rust w))
      as [[r rs] e].
    destruct (decide (r ≠ MP3_OK)) as [Hr|_].
    { exfalso. apply Hr. congruence. }
    injection Hinit as <-.
    eexists _, _. split; [apply lookup_insert_eq|]. split.
    + apply mp3_session_deinit_live. apply lookup_insert_eq.
    + simpl. apply delete_insert_id, fresh_unused.
  - intros s [obj Hs]. eexists. split.
    + apply mp3_session_deinit_live, Hs.
    + reflexivity.
Qed.

(** *** The detector *)

Lemma keeps_detector_ret {A} (a : A) : keeps_detector E (ret a).
Proof. intros w a' w' [= _ <-]. reflexivity. Qed.

Lemma keeps_detector_bind {A B} (c : M A) (k : A -> M B) :
  keeps_detector E c -> (forall a, keeps_detector E (k a)) ->
  keeps_detector E (bind c k).
Proof.
  intros Hc Hk w b w'. unfold bind.
  destruct (c w) as [[a w1]|] eqn:Hcw; [|discriminate].
  intros Hkw. rewrite (Hk _ _ _ _ Hkw). apply (Hc _ _ _ Hcw).
Qed.

Lemma keeps_detector_if {A} (b : bool) (c1 c2 : M A) :
  keeps_detector E c1 -> keeps_detector E c2 ->
  keeps_detector E (if b then c1 else c2).
Proof. destruct b; auto. Qed.

Lemma keeps_detector_store_session_var p v :
  keeps_detector E (store_session_var p v).
Proof. intros w a w' [= _ <-]. reflexivity. Qed.

Lemma keeps_detector_load_session_var p : keeps_detector E (load_session_var p).
Proof.
  intros w a w'. unfold load_session_var.
  destruct (session_vars w !! p); [|discriminate].
  intros [= _ <-]. reflexivity.
Qed.

Lemma keeps_detector_push_local v : keeps_detector E (push_local v).
Proof. intros w a w' [= _ <-]. reflexivity. Qed.

Lemma keeps_detector_pop_local p : keeps_detector E (pop_local p).
Proof. intros w a w' [= _ <-]. reflexivity. Qed.

Lemma keeps_detector_memset_info p : keeps_detector E (memset_info p).
Proof. intros w a w' [= _ <-]. reflexivity. Qed.

Lemma keeps_detector_new_session : keeps_detector E new_session.
Proof.
  intros w a w'. unfold new_session.
  destruct (decide _); intros [= _ <-]; reflexivity.
Qed.

Lemma keeps_detector_delete_session s : keeps_detector E (delete_session s).
Proof.
  intros w a w'. unfold delete_session.
  destruct (heap w !! s); [|discriminate]. intros [= _ <-]. reflexivity.
Qed.

Lemma keeps_detector_load_rust_session s :
  keeps_detector E (load_rust_session s).
Proof.
  intros w a w'. unfold load_rust_session.
  destruct (heap w !! s); [|discriminate]. intros [= _ <-]. reflexivity.
Qed.

Lemma keeps_detector_store_rust_session s v :
  keeps_detector E (store_rust_session s v).
Proof.
  intros w a w'. unfold store_rust_session.
  destruct (heap w !! s); [|discriminate]. intros [= _ <-]. reflexivity.
Qed.

Lemma keeps_detector_call_init_impl h rs0 :
  keeps_detector E (call_init_impl h rs0).
Proof.
  intros w a w'. unfold call_init_impl.
  destruct (mp3_rust_session_init_impl h (Some rs0) (rust w)) as [[r rs] e].
  intros [= _ <-]. reflexivity.
Qed.

Lemma keeps_detector_call_run_impl rs out_info :
  keeps_detector E (call_run_impl rs out_info).
Proof.
  intros w a w'. unfold call_run_impl.
  destruct out_info as [p|].
  - destruct (info_vars w !! p) as [info|]; [|discriminate].
    destruct (mp3_rust_session_run_impl rs (Some info) (rust w))
      as [[r out] e].
    intros [= _ <-]. reflexivity.
  - destruct (mp3_rust_session_run_impl rs None (rust w)) as [[r out] e].
    intros [= _ <-]. reflexivity.
Qed.

Lemma keeps_detector_call_deinit_impl rs :
  keeps_detector E (call_deinit_impl rs).
Proof. intros w a w' [= _ <-]. reflexivity. Qed.

Create HintDb detector discriminated.
#[local] Hint Resolve keeps_detector_ret keeps_detector_store_session_var
  keeps_detector_load_session_var keeps_detector_push_local
  keeps_detector_pop_local keeps_detector_memset_info
  keeps_detector_new_session keeps_detector_delete_session
  keeps_detector_load_rust_session keeps_detector_store_rust_session
  keeps_detector_call_init_impl keeps_detector_call_run_impl
  keeps_detector_call_deinit_impl : detector.

(** Walks through a computation built from [bind], [if], [match] on
    pointers and the primitives. *)
Ltac keeps_detector_tac :=
  repeat first
    [ apply keeps_detector_bind; [|intros ?]
    | match goal with
      | |- keeps_detector E (if ?b then _ else _) => destruct b
      | |- keeps_detector E (match ?x with _ => _ end) => destruct x
      end
    | solve [auto with detector] ].

Lemma keeps_detector_session_init detector host_api out_session :
  keeps_detector E (mp3_session_init detector host_api out_session).
Proof. unfold mp3_session_init. keeps_detector_tac. Qed.

Lemma keeps_detector_session_run session out_info :
  keeps_detector E (mp3_session_run session out_info).
Proof. unfold mp3_session_run. keeps_detector_tac. Qed.

Lemma keeps_detector_session_deinit session :
  keeps_detector E (mp3_session_deinit session).
Proof. unfold mp3_session_deinit. keeps_detector_tac. Qed.

Lemma keeps_detector_analyze detector host_api out_info :
  keeps_detector E (mp3_analyze detector host_api out_info).
Proof.
  unfold mp3_analyze.
  destruct detector, host_api, out_info; try apply keeps_detector_ret.
  apply keeps_detector_bind; [apply keeps_detector_push_local|intros var].
  apply keeps_detector_bind; [apply keeps_detector_session_init|intros r].
  destruct (decide (r ≠ MP3_OK)).
  - keeps_detector_tac.
  - apply keeps_detector_bind; [apply keeps_detector_load_session_var|].
    intros session.
    apply keeps_detector_bind; [apply keeps_detector_session_run|intros r2].
    apply keeps_detector_bind; [apply keeps_detector_session_deinit|intros _].
    keeps_detector_tac.
Qed.

(** C8.  [mp3_detector_create] and [mp3_detector_instance] return the
    same non-null handle, the address of [g_detector], and change
    nothing.  [mp3_detector_destroy] changes nothing either, so the
    handle serves later calls as before.  No lifecycle call, for any
    arguments and any engine, changes the content of [g_detector]. *)
Theorem detector_is_stateless w :
  mp3_detector_create w = Some (Some g_detector_addr, w) /\
  mp3_detector_instance w = Some (Some g_detector_addr, w) /\
  (forall detector, mp3_detector_destroy detector w = Some (tt, w)) /\
  (forall detector,
     bind (mp3_detector_destroy detector) (fun _ => mp3_detector_instance) w
     = Some (Some g_detector_addr, w)) /\
  (forall detector host_api out_session,
     keeps_detector E (mp3_session_init detector host_api out_session)) /\
  (forall session out_info, keeps_detector E (mp3_session_run session out_info)) /\
  (forall session, keeps_detector E (mp3_session_deinit session)) /\
  (forall detector host_api out_info,
     keeps_detector E (mp3_analyze detector host_api out_info)).
Proof.
  repeat split; try reflexivity.
  - apply keeps_detector_session_init.
  - apply keeps_detector_session_run.
  - apply keeps_detector_session_deinit.
  - apply keeps_detector_analyze.
Qed.

(** *** Failure and the output record *)

(** C2, as amended.  With non-null session and record pointers
    [mp3_session_run] zeroes the record before the engine runs, so a
    non-OK result of an engine that sets no valid flag when it fails
    leaves a record with [valid = 0].  A failing [mp3_analyze] leaves
    the record either untouched, exactly as the caller passed it (the
    failure came before the run), or with [valid = 0]. *)
Theorem failed_run_leaves_invalid_record :
  engine_failure_invalid ->
  forall s o w r w',
    (mp3_session_run (Some s) (Some o) w = Some (r, w') -> r ≠ MP3_OK ->
     exists info, info_vars w' !! o = Some info /\ valid info = 0) /\
    (forall detector host_api,
       mp3_analyze detector host_api (Some o) w = Some (r, w') ->
       r ≠ MP3_OK ->
       info_vars w' !! o = info_vars w !! o \/
       exists info, info_vars w' !! o = Some info /\ valid info = 0).
Proof.
  intros Hengine s o w r w'. split.
  - intros Hrun Hr.
    destruct (heap w !! s) as [obj|] eqn:Hs.
    + rewrite (mp3_session_run_live _ _ _ obj Hs) in Hrun.
      destruct (mp3_rust_session_run_impl (rust_session obj) (Some zero_info)
                  (rust w)) as [[r2 info] e] eqn:Himpl.
      injection Hrun as -> <-. simpl. rewrite lookup_insert_eq.
      eexists; split; [reflexivity|].
      destruct info as [info|]; [|reflexivity].
      apply (Hengine _ _ _ _ _ Himpl Hr).
    + rewrite mp3_session_run_dead in Hrun by exact Hs. discriminate.
  - intros detector host_api Han Hr.
    destruct (mp3_analyze_cases detector host_api o w)
      as [H | [H | (d & api & f & _ & _ & _ & H)]];
      rewrite H in Han.
    + injection Han as _ <-. left; reflexivity.
    + injection Han as _ <-. left; reflexivity.
    + unfold analyze_outcome in Han.
      destruct (decide (has_room w)).
      2:{ injection Han as _ <-. left; reflexivity. }
      destruct (mp3_rust_session_init_impl (Some api) (Some None) (rust w))
        as [[r1 rs] e1].
      destruct (decide (r1 ≠ MP3_OK)).
      { injection Han as _ <-. left; reflexivity. }
      destruct (mp3_rust_session_run_impl (default None rs) (Some zero_info)
                  e1) as [[r2 info] e2] eqn:Himpl.
      injection Han as -> <-. right. simpl. rewrite lookup_insert_eq.
      eexists; split; [reflexivity|].
      destruct info as [info|]; [|reflexivity].
      apply (Hengine _ _ _ _ _ Himpl Hr).
Qed.

(** *** Repetition *)

(** [mp3_analyze] never runs into undefined behaviour: the session it
    uses is its own. *)
Lemma mp3_analyze_total (detector : ptr) (host_api : option mp3_host_api_t)
    (out_info : ptr) w :
  exists r w1, mp3_analyze detector host_api out_info w = Some (r, w1).
Proof.
  destruct out_info as [o|].
  - destruct (mp3_analyze_cases detector host_api o w)
      as [H | [H | (d & api & f & _ & _ & _ & H)]]; rewrite H.
    + eauto.
    + eauto.
    + destruct (analyze_outcome api o w) as [r w1]. eauto.
  - rewrite mp3_analyze_null by auto. eauto.
Qed.

Lemma mp3_analyze_again (detector : ptr) (host_api : option mp3_host_api_t)
    (out_info : ptr) w r w1 :
  engine_session_scoped ->
  mp3_analyze detector host_api out_info w = Some (r, w1) ->
  mp3_analyze detector host_api out_info w1 = Some (r, w1).
Proof.
  intros Hscoped Han.
  destruct out_info as [o|].
  2:{ rewrite mp3_analyze_null in Han by auto.
      injection Han as <- <-. apply mp3_analyze_null; auto. }
  destruct (mp3_analyze_cases detector host_api o w)
    as [H | [H | (d & api & f & -> & -> & Hf & H)]];
    rewrite H in Han.
  - injection Han as <- <-. exact H.
  - injection Han as <- <-. exact H.
  - rewrite (mp3_analyze_checked _ _ f) by exact Hf.
    f_equal. unfold analyze_outcome in *. injection Han as Han.
    destruct (decide (has_room w)) as [Hroom|Hfull].
    + destruct (mp3_rust_session_init_impl (Some api) (Some None) (rust w))
        as [[r1 rs] e1] eqn:Hinit.
      destruct (Hscoped _ _ _ _ _ Hinit) as [Hfail Hok].
      destruct (decide (r1 ≠ MP3_OK)) as [Hr1|Hr1].
      * injection Han as <- <-. rewrite (Hfail Hr1) in *. simpl.
        destruct (decide (has_room _)) as [_|[]]; [|exact Hroom].
        rewrite Hinit.
        destruct (decide (r1 ≠ MP3_OK)) as [_|[]]; [|exact Hr1].
        reflexivity.
      * destruct (mp3_rust_session_run_impl (default None rs)
                    (Some zero_info) e1) as [[r2 info] e2] eqn:Hrun.
        assert (Hr1' : r1 = MP3_OK).
        { destruct (decide (r1 = MP3_OK)); [assumption|contradiction]. }
        specialize (Hok Hr1' _ _ _ _ Hrun).
        injection Han as <- <-. simpl. rewrite Hok.
        destruct (decide (has_room _)) as [_|[]]; [|exact Hroom].
        rewrite Hinit.
        destruct (decide (r1 ≠ MP3_OK)) as [|_]; [contradiction|].
        rewrite Hrun. simpl. rewrite Hok, insert_insert_eq. reflexivity.
    + injection Han as <- <-.
      destruct (decide (has_room w)); [contradiction|reflexivity].
Qed.

(** C6.  With an engine whose sessions leave nothing behind, an analysis
    returns a result code and a world, and a second analysis with the
    same arguments, started in that world, returns the same result code
    and ends in the same world, so with the same record: the outcome is
    a function of the arguments alone. *)
Theorem analysis_is_repeatable :
  engine_session_scoped ->
  forall (detector : ptr) (host_api : option mp3_host_api_t)
         (out_info : ptr) w,
  exists r w1,
    mp3_analyze detector host_api out_info w = Some (r, w1) /\
    mp3_analyze detector host_api out_info w1 = Some (r, w1).
Proof.
  intros Hscoped detector host_api out_info w.
  destruct (mp3_analyze_total detector host_api out_info w) as (r & w1 & Han).
  exists r, w1. split; [exact Han|].
  apply (mp3_analyze_again _ _ _ w); assumption.
Qed.

(** *** The one-step function *)

(** C9, as amended.  With a non-null record pointer [mp3_analyze] is the
    sequence [mp3_session_init], [mp3_session_run], [mp3_session_deinit]
    of [init_run_deinit]: the initialisation error and no run when
    initialisation fails, the result of the one run otherwise.  Whatever
    the outcome, the session objects and session variables are afterwards
    what they were before: the session has been torn down. *)
Theorem analyze_is_init_run_deinit (detector : ptr)
    (host_api : option mp3_host_api_t) o w :
  mp3_analyze detector host_api (Some o) w
  = init_run_deinit detector host_api (Some o) w /\
  forall r w', mp3_analyze detector host_api (Some o) w = Some (r, w') ->
               heap w' = heap w /\ session_vars w' = session_vars w.
Proof.
  split.
  - assert (Hnull : forall detector' host_api',
              detector' = None \/ host_api' = None ->
              mp3_analyze detector' host_api' (Some o) w
              = init_run_deinit detector' host_api' (Some o) w).
    { intros detector' host_api' Hn. unfold init_run_deinit.
      rewrite !mp3_session_init_null, mp3_analyze_null by tauto.
      primitives. rewrite delete_insert_id by apply fresh_unused.
      rewrite world_eta. reflexivity. }
    destruct detector as [d|]; [|apply Hnull; auto].
    destruct host_api as [api|]; [|apply Hnull; auto].
    clear Hnull. unfold mp3_analyze, init_run_deinit.
    unfold bind at 1, push_local at 1. cbv beta zeta.
    unfold bind at 1.
    destruct (mp3_session_init (Some d) (Some api) _ _) as [[r1 w1]|];
      [|reflexivity].
    destruct (decide (r1 ≠ MP3_OK)) as [Hr1|Hr1].
    + unfold bind, pop_local, modify, ret.
      destruct r1; try reflexivity. contradiction.
    + assert (r1 = MP3_OK) as ->.
      { destruct (decide (r1 = MP3_OK)); [assumption|contradiction]. }
      unfold bind at 1, load_session_var at 1.
      destruct (session_vars w1 !! _) as [session|]; [|reflexivity].
      unfold bind at 1.
      destruct (mp3_session_run session (Some o) w1) as [[r2 w2]|];
        [|reflexivity].
      unfold bind at 1.
      destruct (mp3_session_deinit session w2) as [[[] w3]|]; reflexivity.
  - intros r w' Han.
    destruct (mp3_analyze_cases detector host_api o w)
      as [H | [H | (d & api & f & _ & _ & _ & H)]];
      rewrite H in Han.
    + injection Han as _ <-. split; reflexivity.
    + injection Han as _ <-. split; reflexivity.
    + unfold analyze_outcome in Han.
      destruct (decide (has_room w)).
      2:{ injection Han as _ <-. split; reflexivity. }
      destruct (mp3_rust_session_init_impl (Some api) (Some None) (rust w))
        as [[r1 rs] e1].
      destruct (decide (r1 ≠ MP3_OK)).
      { injection Han as _ <-. split; reflexivity. }
      destruct (mp3_rust_session_run_impl (default None rs) (Some zero_info)
                  e1) as [[r2 info] e2].
      injection Han as _ <-. split; reflexivity.
Qed.

(** *** The out-session *)

Lemma init_outcome_failure api out w :
  (init_outcome api out w).1 ≠ MP3_OK ->
  session_vars (init_outcome api out w).2 !! out = Some None /\
  heap (init_outcome api out w).2 = heap w.
Proof.
  unfold init_outcome. destruct (decide (has_room w)); simpl.
  - destruct (mp3_rust_session_init_impl (Some api) (Some None) (rust w))
      as [[r1 rs] e1].
    destruct (decide (r1 ≠ MP3_OK)); simpl; [|contradiction].
    intros _. split; [apply lookup_insert_eq|reflexivity].
  - intros _. split; [apply lookup_insert_eq|reflexivity].
Qed.

Lemma init_outcome_success api out w :
  (init_outcome api out w).1 = MP3_OK ->
  exists s, session_vars (init_outcome api out w).2 !! out = Some (Some s) /\
            heap w !! s = None /\
            is_Some (heap (init_outcome api out w).2 !! s).
Proof.
  unfold init_outcome. destruct (decide (has_room w)); simpl.
  - destruct (mp3_rust_session_init_impl (Some api) (Some None) (rust w))
      as [[r1 rs] e1].
    destruct (decide (r1 ≠ MP3_OK)); simpl; [contradiction|].
    intros _. exists (fresh (dom (heap w))). rewrite !lookup_insert_eq.
    split; [reflexivity|]. split; [apply fresh_unused|eauto].
  - discriminate.
Qed.

(** C10, as amended.  [mp3_session_init] returns [MP3_OK] exactly when
    afterwards the out-variable holds the address of a session object
    that did not exist before.  When it returns another code although
    detector, host API and out-variable pointers are non-null and the
    read callback is there, the out-variable holds null. *)
Theorem session_init_out_session (detector : ptr)
    (host_api : option mp3_host_api_t) out w r w' :
  mp3_session_init detector host_api (Some out) w = Some (r, w') ->
  (r = MP3_OK <->
   exists s, session_vars w' !! out = Some (Some s) /\
             heap w !! s = None /\ is_Some (heap w' !! s)) /\
  (r ≠ MP3_OK -> detector ≠ None ->
   (exists api f, host_api = Some api /\ read_at api = Some f) ->
   session_vars w' !! out = Some None).
Proof.
  intros Hinit. split.
  - assert (Hsame : heap w' = heap w ->
              ~ exists s, session_vars w' !! out = Some (Some s) /\
                          heap w !! s = None /\ is_Some (heap w' !! s)).
    { intros Heq (s & _ & Hnone & obj & Hsome). congruence. }
    destruct (mp3_session_init_cases detector host_api out w)
      as [H | [H | (d & api & f & _ & _ & _ & H)]];
      rewrite H in Hinit.
    + injection Hinit as <- <-.
      split; [discriminate|]. intros Hs. destruct (Hsame eq_refl Hs).
    + injection Hinit as <- <-.
      split; [discriminate|]. intros Hs. destruct (Hsame eq_refl Hs).
    + injection Hinit as Hinit.
      assert (r = (init_outcome api out w).1) as -> by (rewrite Hinit; reflexivity).
      assert (w' = (init_outcome api out w).2) as -> by (rewrite Hinit; reflexivity).
      split; [apply init_outcome_success|].
      intros Hs. destruct (decide ((init_outcome api out w).1 = MP3_OK))
        as [|Hr]; [assumption|].
      destruct (Hsame (proj2 (init_outcome_failure _ _ _ Hr)) Hs).
  - intros Hr Hd (api & f & -> & Hf).
    destruct detector as [d|]; [|contradiction].
    rewrite (mp3_session_init_checked _ _ f) in Hinit by exact Hf.
    injection Hinit as Hinit.
    assert (r = (init_outcome api out w).1) as -> by (rewrite Hinit; reflexivity).
    assert (w' = (init_outcome api out w).2) as -> by (rewrite Hinit; reflexivity).
    apply init_outcome_failure, Hr.
Qed.

End Lifecycle.

(** * The build without an engine: the weak stubs *)

Section WeakStub.
Implicit Types (w : world unit).

Lemma stub_session_scoped : engine_session_scoped (E := unit).
Proof.
  intros h [] r rs [] _. split; [reflexivity|].
  intros _ info r2 info2 [] _. reflexivity.
Qed.

Lemma stub_failure_invalid : engine_failure_invalid (E := unit).
Proof. intros rs e r info e2 [= _ <- _] _. reflexivity. Qed.

(** C5, as amended.  With the stubs linked, [mp3_analyze] on non-null
    arguments and a host API that has the read callback returns
    [MP3_ERR_NOT_IMPLEMENTED], whose value is 6, as long as the session
    object can be allocated, and [MP3_ERR_OUT_OF_MEMORY] otherwise.  The
    world is afterwards what it was: no session is left, and the output
    record is exactly as the caller passed it. *)
Theorem stub_analyze_not_implemented d api f o w :
  read_at api = Some f ->
  mp3_analyze (Some d) (Some api) (Some o) w
  = Some (if decide (has_room w) then MP3_ERR_NOT_IMPLEMENTED
          else MP3_ERR_OUT_OF_MEMORY, w) /\
  result_value MP3_ERR_NOT_IMPLEMENTED = 6.
Proof.
  intros Hf. split; [|reflexivity].
  rewrite (mp3_analyze_checked _ _ f) by exact Hf.
  unfold analyze_outcome. destruct (decide (has_room w)); [|reflexivity].
  simpl. rewrite world_eta. reflexivity.
Qed.

End WeakStub.

(** The sample caller's record survives a refused analysis of the stub
    build, valid flag and all. *)
Lemma stub_analyze_keeps_stale_record :
  mp3_analyze (Some g_detector_addr) (Some (file_host_api empty_file))
              (Some 5%positive) (sample_world tt)
  = Some (MP3_ERR_NOT_IMPLEMENTED, sample_world tt) /\
  info_vars (sample_world tt) !! 5%positive = Some stale_info /\
  valid stale_info = 1 /\
  stale_info <> zero_info.
Proof. repeat split; try (vm_compute; reflexivity). discriminate. Qed.

Lemma stub_analyze_not_implemented_witness :
  mp3_analyze (Some g_detector_addr) (Some (file_host_api empty_file))
              (Some 5%positive) (sample_world tt)
  = Some (MP3_ERR_NOT_IMPLEMENTED, sample_world tt).
Proof.
  exact (proj1 (stub_analyze_not_implemented g_detector_addr
                  (file_host_api empty_file) host_read_at 5%positive
                  (sample_world tt) eq_refl)).
Defined.

(** [mp3_session_run] with a null session, and [mp3_analyze] with a host
    API that lacks the read callback, fail and leave the sample caller's
    record marked valid. *)
Lemma failed_call_keeps_valid_record :
  mp3_session_run None (Some 5%positive) (sample_world tt)
  = Some (MP3_ERR_INVALID_PTR, sample_world tt) /\
  mp3_analyze (Some g_detector_addr) (Some api_without_read_at)
              (Some 5%positive) (sample_world tt)
  = Some (MP3_ERR_INVALID_ARG, sample_world tt) /\
  (valid <$> info_vars (sample_world tt) !! 5%positive) = Some 1.
Proof. repeat split; vm_compute; reflexivity. Qed.

Lemma failed_run_leaves_invalid_record_witness :
  exists info,
    info_vars (set_info_vars <[5%positive := zero_info]> sample_world_live)
      !! 5%positive = Some info /\ valid info = 0.
Proof.
  refine (proj1 (failed_run_leaves_invalid_record stub_failure_invalid
                   3%positive 5%positive sample_world_live
                   MP3_ERR_NOT_IMPLEMENTED
                   (set_info_vars <[5%positive := zero_info]> sample_world_live))
                _ _).
  - vm_compute; reflexivity.
  - discriminate.
Defined.

Lemma null_pointer_is_invalid_ptr_witness :
  mp3_session_init None (Some api_without_read_at) (Some 9%positive)
                   (sample_world tt)
  = Some (MP3_ERR_INVALID_PTR, sample_world tt) /\
  mp3_session_run None (Some 5%positive) (sample_world tt)
  = Some (MP3_ERR_INVALID_PTR, sample_world tt) /\
  mp3_analyze None (Some api_without_read_at) (Some 5%positive)
              (sample_world tt)
  = Some (MP3_ERR_INVALID_PTR, sample_world tt).
Proof.
  destruct (null_pointer_is_invalid_ptr None (Some api_without_read_at)
              (Some 9%positive) None (Some 5%positive) (sample_world tt))
    as (Hinit & Hrun & Han & _).
  split; [|split].
  - apply Hinit. left; reflexivity.
  - apply Hrun. left; reflexivity.
  - apply Han. left; reflexivity.
Defined.


Lemma analysis_is_repeatable_witness :
  exists r w1,
    mp3_analyze (Some g_detector_addr) (Some (file_host_api empty_file))
                (Some 5%positive) (sample_world tt) = Some (r, w1) /\
    mp3_analyze (Some g_detector_addr) (Some (file_host_api empty_file))
                (Some 5%positive) w1 = Some (r, w1).
Proof.
  exact (analysis_is_repeatable stub_session_scoped (Some g_detector_addr)
           (Some (file_host_api empty_file)) (Some 5%positive) (sample_world tt)).
Defined.

(** With a null record pointer and a host API that lacks the read
    callback, the three lifecycle calls end with the initialisation
    error, [mp3_analyze] with the pointer error. *)
Lemma analyze_differs_on_null_record :
  mp3_analyze (Some g_detector_addr) (Some api_without_read_at) None
              (sample_world tt)
  = Some (MP3_ERR_INVALID_PTR, sample_world tt) /\
  init_run_deinit (Some g_detector_addr) (Some api_without_read_at) None
                  (sample_world tt)
  = Some (MP3_ERR_INVALID_ARG, sample_world tt).
Proof. split; vm_compute; reflexivity. Qed.

(** With a host API that lacks the read callback the pointer checks of
    [mp3_session_init] pass, the call fails, and the sample caller's
    session variable still holds the old handle. *)
Lemma session_init_keeps_stale_out_session :
  mp3_session_init (Some g_detector_addr) (Some api_without_read_at)
                   (Some 9%positive) (sample_world tt)
  = Some (MP3_ERR_INVALID_ARG, sample_world tt) /\
  session_vars (sample_world tt) !! 9%positive = Some (Some 7%positive).
Proof. split; vm_compute; reflexivity. Qed.

Lemma session_init_out_session_witness :
  session_vars
    (set_session_vars <[9%positive := None]> (sample_world tt)) !! 9%positive
  = Some None.
Proof.
  refine (proj2 (session_init_out_session (Some g_detector_addr)
                   (Some (file_host_api empty_file)) 9%positive (sample_world tt)
                   MP3_ERR_NOT_IMPLEMENTED
                   (set_session_vars <[9%positive := None]> (sample_world tt))
                   _) _ _ _).
  - vm_compute; reflexivity.
  - discriminate.
  - discriminate.
  - exists (file_host_api empty_file), host_read_at. split; reflexivity.
Defined.

(** * The engine of the specification as an engine of the bridge *)

Module SpecEngineFacts.
Import SpecEngine.

(** The engine's sessions leave nothing behind. *)
Lemma engine_session_scoped_spec p :
  engine_session_scoped (impl := engine p).
Proof.
  intros host_api e r rs e1.
  cbn [mp3_rust_session_init_impl mp3_rust_session_run_impl
       mp3_rust_session_deinit_impl engine].
  unfold session_init.
  destruct host_api as [api|].
  - destruct (read_at api).
    + intros [= <- <- <-]. split; [intros []; reflexivity|].
      intros _ info r2 info2 e2. cbn [default]. unfold session_run, id.
      set (e1 := <[fresh (dom e) := api]> e).
      assert (Hback : session_deinit (Some (fresh (dom e))) e1 = e)
        by apply delete_insert_id, fresh_unused.
      destruct info as [info|]; [|intros [= _ _ <-]; exact Hback].
      destruct (session_source e1 (Some (fresh (dom e)))) as [src|];
        [destruct (analyze p src)|]; intros [= _ _ <-]; exact Hback.
    + intros [= <- <- <-]. split; [reflexivity|discriminate].
  - intros [= <- <- <-]. split; [reflexivity|discriminate].
Qed.

(** The engine marks no record valid that goes with a failure. *)
Lemma engine_failure_invalid_spec p :
  engine_failure_invalid (impl := engine p).
Proof.
  intros rs e r info e2.
  cbn [mp3_rust_session_run_impl engine]. unfold session_run.
  destruct (session_source e rs) as [src|].
  - unfold analyze. destruct (analyze_source p src) as [[[[h d] b] sz]|err].
    + unfold assemble. repeat destruct (decide _);
        intros [= <- <- _] Hr; try reflexivity. destruct Hr; reflexivity.
    + intros [= <- <- _] _. reflexivity.
  - intros [= <- <- _] _. reflexivity.
Qed.

(** ** The lifecycle with the engine linked *)

Lemma session_deinit_is_safe_witness :
  exists w1 s w2,
    mp3_session_init (impl := engine example_policy) (Some g_detector_addr)
                     (Some (file_host_api empty_file)) (Some 9%positive) engine_world
    = Some (MP3_OK, w1) /\
    session_vars w1 !! 9%positive = Some (Some s) /\
    mp3_session_deinit (impl := engine example_policy) (Some s) w1
    = Some (tt, w2) /\
    heap w2 = heap engine_world.
Proof.
  pose proof (session_deinit_is_safe (impl := engine example_policy)
                engine_world) as (_ & Hfresh & _).
  assert (Hinit : mp3_session_init (impl := engine example_policy)
                    (Some g_detector_addr) (Some (file_host_api empty_file))
                    (Some 9%positive) engine_world
                  = Some (init_outcome (impl := engine example_policy)
                            (file_host_api empty_file) 9%positive engine_world)).
  { vm_compute; reflexivity. }
  destruct (Hfresh (Some g_detector_addr) (Some (file_host_api empty_file))
              9%positive _ Hinit) as (s & w2 & Hvar & Hdeinit & Hheap).
  exists (init_outcome (impl := engine example_policy)
            (file_host_api empty_file) 9%positive engine_world).2, s, w2.
  split; [exact Hinit|]. split; [exact Hvar|]. split; assumption.
Defined.

End SpecEngineFacts.

(** * Further properties of the lifecycle API *)

Section LifecycleMore.
Context {E : Type} {impl : Engine E}.
Implicit Types (w : world E) (d out o s : addr) (api : mp3_host_api_t).

(** What [init_outcome] does to the world. *)
Lemma init_outcome_effect api out w :
  let r := (init_outcome api out w).1 in
  let w' := (init_outcome api out w).2 in
  g_detector w' = g_detector w /\ heap_limit w' = heap_limit w /\
  info_vars w' = info_vars w /\
  (forall p, p ≠ out -> session_vars w' !! p = session_vars w !! p) /\
  (r ≠ MP3_OK -> heap w' = heap w) /\
  (r = MP3_OK ->
   has_room w /\
   exists obj, heap w' = <[fresh (dom (heap w)) := obj]> (heap w) /\
               session_vars w' !! out = Some (Some (fresh (dom (heap w))))) /\
  (~ has_room w -> r = MP3_ERR_OUT_OF_MEMORY /\ rust w' = rust w).
Proof.
  unfold init_outcome. destruct (decide (has_room w)) as [Hroom|Hfull].
  - destruct (mp3_rust_session_init_impl (Some api) (Some None) (rust w))
      as [[r rs] e].
    destruct (decide (r ≠ MP3_OK)) as [Hr|Hr]; simpl.
    + repeat split; try contradiction; try reflexivity.
      intros p Hp. apply lookup_insert_ne. congruence.
    + repeat split; try contradiction; try reflexivity; try assumption.
      * intros p Hp. apply lookup_insert_ne. congruence.
      * eexists. split; [reflexivity|apply lookup_insert_eq].
  - simpl. repeat split; try discriminate; try reflexivity.
    intros p Hp. apply lookup_insert_ne. congruence.
Qed.

(** What [mp3_analyze] does to the world. *)
Lemma mp3_analyze_effect (detector : ptr) (host_api : option mp3_host_api_t)
    o w r w' :
  mp3_analyze detector host_api (Some o) w = Some (r, w') ->
  g_detector w' = g_detector w /\ heap w' = heap w /\
  heap_limit w' = heap_limit w /\ session_vars w' = session_vars w /\
  ((r ≠ MP3_OK /\ info_vars w' = info_vars w) \/
   exists rs e info e2,
     mp3_rust_session_run_impl rs (Some zero_info) e = (r, info, e2) /\
     info_vars w' = <[o := default zero_info info]> (info_vars w)).
Proof.
  intros Han.
  destruct (mp3_analyze_cases detector host_api o w)
    as [H | [H | (d & api & f & _ & _ & _ & H)]];
    rewrite H in Han.
  - injection Han as <- <-. repeat split. left. split; [discriminate|reflexivity].
  - injection Han as <- <-. repeat split. left. split; [discriminate|reflexivity].
  - unfold analyze_outcome in Han.
    destruct (decide (has_room w)).
    2:{ injection Han as <- <-. repeat split.
        left. split; [discriminate|reflexivity]. }
    destruct (mp3_rust_session_init_impl (Some api) (Some None) (rust w))
      as [[r1 rs] e1].
    destruct (decide (r1 ≠ MP3_OK)).
    { injection Han as <- <-. repeat split.
      left. split; [assumption|reflexivity]. }
    destruct (mp3_rust_session_run_impl (default None rs) (Some zero_info)
                e1) as [[r2 info] e2] eqn:Hrun.
    injection Han as <- <-. repeat split.
    right. exists (default None rs), e1, info, e2. split; [exact Hrun|reflexivity].
Qed.

(** X1.  A failing [mp3_session_init] leaks nothing: the session
    objects and the callers' records are what they were.  When no session
    object can be allocated the call cannot succeed, and with arguments
    that pass the checks it returns [MP3_ERR_OUT_OF_MEMORY] without
    having called the engine. *)
Theorem session_init_failure_leaks_nothing (detector : ptr)
    (host_api : option mp3_host_api_t) (out_session : ptr) w r w' :
  mp3_session_init detector host_api out_session w = Some (r, w') ->
  (r ≠ MP3_OK -> heap w' = heap w /\ info_vars w' = info_vars w) /\
  (~ has_room w ->
   r ≠ MP3_OK /\ rust w' = rust w /\
   (forall d api f out,
      detector = Some d -> host_api = Some api -> read_at api = Some f ->
      out_session = Some out -> r = MP3_ERR_OUT_OF_MEMORY)).
Proof.
  intros Hinit.
  assert (Hsame : w' = w -> r ≠ MP3_OK -> r ≠ MP3_ERR_OUT_OF_MEMORY ->
            (forall d api f out,
               detector = Some d -> host_api = Some api ->
               read_at api = Some f -> out_session = Some out -> has_room w) ->
            (r ≠ MP3_OK -> heap w' = heap w /\ info_vars w' = info_vars w) /\
            (~ has_room w ->
             r ≠ MP3_OK /\ rust w' = rust w /\
             (forall d api f out,
                detector = Some d -> host_api = Some api ->
                read_at api = Some f -> out_session = Some out ->
                r = MP3_ERR_OUT_OF_MEMORY))).
  { intros -> Hr Hoom Hvalid. split; [intros _; split; reflexivity|].
    intros Hfull. split; [exact Hr|]. split; [reflexivity|].
    intros d api f out Hd Hh Hf Ho.
    destruct Hfull. apply (Hvalid d api f out); assumption. }
  destruct out_session as [out|].
  2:{ rewrite mp3_session_init_null in Hinit by auto.
      injection Hinit as <- <-. apply Hsame; try discriminate; reflexivity. }
  destruct (mp3_session_init_cases detector host_api out w)
    as [H | [H | (d & api & f & -> & -> & Hf & H)]];
    rewrite H in Hinit.
  - injection Hinit as <- <-. apply Hsame; try discriminate; try reflexivity.
    intros d api f out' -> -> Hf _.
    rewrite (mp3_session_init_checked _ _ f) in H by exact Hf.
    injection H as H.
    pose proof (init_outcome_effect api out w) as (_ & _ & _ & _ & _ & _ & Hfull).
    rewrite H in Hfull. simpl in Hfull.
    destruct (decide (has_room w)) as [|Hno]; [assumption|].
    destruct (Hfull Hno) as [Hoom _]. discriminate Hoom.
  - injection Hinit as <- <-. apply Hsame; try discriminate; try reflexivity.
    intros d api f out' -> -> Hf _.
    rewrite (mp3_session_init_checked _ _ f) in H by exact Hf.
    injection H as H.
    pose proof (init_outcome_effect api out w) as (_ & _ & _ & _ & _ & _ & Hfull).
    rewrite H in Hfull. simpl in Hfull.
    destruct (decide (has_room w)) as [|Hno]; [assumption|].
    destruct (Hfull Hno) as [Hoom _]. discriminate Hoom.
  - injection Hinit as Hinit.
    pose proof (init_outcome_effect api out w)
      as (_ & _ & Hinfo & _ & Hfail & _ & Hfull).
    rewrite Hinit in *. simpl in *. split.
    + intros Hr. split; [apply Hfail, Hr|exact Hinfo].
    + intros Hno. destruct (Hfull Hno) as [-> Hrust].
      split; [discriminate|]. split; [exact Hrust|]. reflexivity.
Qed.

(** X2.  A run on a live session touches nothing but the caller's
    record and the engine: the session objects, the session variables and
    every other record are what they were.  The session is still live,
    so it can be run again. *)
Theorem session_run_frame s o w r w' :
  mp3_session_run (Some s) (Some o) w = Some (r, w') ->
  heap w' = heap w /\ session_vars w' = session_vars w /\
  heap_limit w' = heap_limit w /\
  (forall p, p ≠ o -> info_vars w' !! p = info_vars w !! p) /\
  is_Some (info_vars w' !! o) /\
  exists r2 w2, mp3_session_run (Some s) (Some o) w' = Some (r2, w2).
Proof.
  intros Hrun.
  destruct (heap w !! s) as [obj|] eqn:Hs.
  2:{ rewrite mp3_session_run_dead in Hrun by exact Hs. discriminate. }
  rewrite (mp3_session_run_live _ _ _ obj Hs) in Hrun.
  destruct (mp3_rust_session_run_impl (rust_session obj) (Some zero_info)
              (rust w)) as [[r1 info] e].
  injection Hrun as <- <-. cbn [heap session_vars heap_limit info_vars].
  do 3 (split; [reflexivity|]). split; [|split].
  - intros p Hp. apply lookup_insert_ne. congruence.
  - rewrite lookup_insert_eq. eauto.
  - rewrite (mp3_session_run_live _ _ _ obj) by exact Hs.
    destruct (mp3_rust_session_run_impl _ _ _) as [[r2 info2] e2]. eauto.
Qed.

(** X3.  Teardown of a live session is defined, frees its object and
    leaves every session variable as it was, so a caller's handle is not
    reset to null.  Afterwards a run or a second teardown on that handle
    is undefined behaviour. *)
Theorem session_use_after_deinit s o w :
  is_Some (heap w !! s) ->
  exists w',
    mp3_session_deinit (Some s) w = Some (tt, w') /\
    session_vars w' = session_vars w /\
    heap w' !! s = None /\
    mp3_session_run (Some s) (Some o) w' = None /\
    mp3_session_deinit (Some s) w' = None.
Proof.
  intros [obj Hs]. eexists. split; [apply mp3_session_deinit_live, Hs|].
  simpl. split; [reflexivity|].
  assert (Hgone : delete s (heap w) !! s = None) by apply lookup_delete_eq.
  split; [exact Hgone|]. split.
  - apply mp3_session_run_dead. exact Hgone.
  - unfold mp3_session_deinit. primitives. rewrite Hgone. reflexivity.
Qed.

(** X4.  Two sessions initialised one after the other into different
    variables have different handles, both live.  Teardown of the first
    leaves the second as it is. *)
Theorem two_sessions_are_independent (detector1 detector2 : ptr)
    (host_api1 host_api2 : option mp3_host_api_t) out1 out2 w w1 w2 :
  out1 ≠ out2 ->
  mp3_session_init detector1 host_api1 (Some out1) w = Some (MP3_OK, w1) ->
  mp3_session_init detector2 host_api2 (Some out2) w1 = Some (MP3_OK, w2) ->
  exists s1 s2,
    session_vars w2 !! out1 = Some (Some s1) /\
    session_vars w2 !! out2 = Some (Some s2) /\
    s1 ≠ s2 /\ is_Some (heap w2 !! s1) /\ is_Some (heap w2 !! s2) /\
    exists w3, mp3_session_deinit (Some s1) w2 = Some (tt, w3) /\
               heap w3 !! s2 = heap w2 !! s2 /\ heap w3 !! s1 = None.
Proof.
  intros Hout Hinit1 Hinit2.
  assert (Hok : forall detector host_api out wa wb,
            mp3_session_init detector host_api (Some out) wa
            = Some (MP3_OK, wb) ->
            (forall p, p ≠ out -> session_vars wb !! p = session_vars wa !! p) /\
            exists obj, heap wb = <[fresh (dom (heap wa)) := obj]> (heap wa) /\
                        session_vars wb !! out
                        = Some (Some (fresh (dom (heap wa))))).
  { intros detector host_api out wa wb Hinit.
    destruct (mp3_session_init_cases detector host_api out wa)
      as [H | [H | (d & api & f & _ & _ & _ & H)]];
      rewrite H in Hinit; try discriminate.
    injection Hinit as Hinit.
    pose proof (init_outcome_effect api out wa)
      as (_ & _ & _ & Hvars & _ & Hsucc & _).
    rewrite Hinit in *. simpl in *.
    split; [exact Hvars|]. apply Hsucc. reflexivity. }
  destruct (Hok _ _ _ _ _ Hinit1) as (_ & obj1 & Hheap1 & Hvar1).
  destruct (Hok _ _ _ _ _ Hinit2) as (Hvars2 & obj2 & Hheap2 & Hvar2).
  set (s1 := fresh (dom (heap w))) in *.
  set (s2 := fresh (dom (heap w1))) in *.
  assert (Hs1 : heap w1 !! s1 = Some obj1)
    by (rewrite Hheap1; apply lookup_insert_eq).
  assert (Hne : s1 ≠ s2).
  { intros Heq. pose proof (fresh_unused (heap w1)) as Hfresh.
    fold s2 in Hfresh. rewrite <- Heq in Hfresh. congruence. }
  assert (Hs1' : heap w2 !! s1 = Some obj1).
  { rewrite Hheap2, lookup_insert_ne by congruence. exact Hs1. }
  exists s1, s2. split.
  { rewrite Hvars2 by congruence. exact Hvar1. }
  split; [exact Hvar2|]. split; [exact Hne|]. split; [eauto|].
  split; [rewrite Hheap2, lookup_insert_eq; eauto|].
  eexists. split; [apply mp3_session_deinit_live, Hs1'|]. simpl.
  split; [apply lookup_delete_ne; congruence|apply lookup_delete_eq].
Qed.

(** X6.  When no session object can be allocated, [mp3_analyze] with
    arguments that pass its checks returns [MP3_ERR_OUT_OF_MEMORY] and
    changes nothing: the engine is not called and the record is not
    written. *)
Theorem analyze_out_of_memory d api f o w :
  read_at api = Some f -> ~ has_room w ->
  mp3_analyze (Some d) (Some api) (Some o) w
  = Some (MP3_ERR_OUT_OF_MEMORY, w).
Proof.
  intros Hf Hfull. rewrite (mp3_analyze_checked _ _ f) by exact Hf.
  unfold analyze_outcome.
  destruct (decide (has_room w)); [contradiction|reflexivity].
Qed.

(** X7.  [mp3_analyze] writes no record but the one it is given, and
    leaves session objects and session variables as they were.  The
    record it is given is either untouched, with a result other than
    [MP3_OK], or holds what the engine's run made of an all-zero
    record. *)
Theorem analyze_writes_only_out_info (detector : ptr)
    (host_api : option mp3_host_api_t) o w r w' :
  mp3_analyze detector host_api (Some o) w = Some (r, w') ->
  (forall p, p ≠ o -> info_vars w' !! p = info_vars w !! p) /\
  heap w' = heap w /\ session_vars w' = session_vars w /\
  ((r ≠ MP3_OK /\ info_vars w' !! o = info_vars w !! o) \/
   exists rs e info e2,
     mp3_rust_session_run_impl rs (Some zero_info) e = (r, info, e2) /\
     info_vars w' !! o = Some (default zero_info info)).
Proof.
  intros Han.
  destruct (mp3_analyze_effect _ _ _ _ _ _ Han)
    as (_ & Hheap & _ & Hvars & [[Hr Hinfo] | (rs & e & info & e2 & Hrun & Hinfo)]).
  - rewrite Hinfo. repeat split; auto.
  - rewrite Hinfo. split; [|split; [exact Hheap|split; [exact Hvars|]]].
    + intros p Hp. apply lookup_insert_ne. congruence.
    + right. exists rs, e, info, e2. split; [exact Hrun|].
      apply lookup_insert_eq.
Qed.

End LifecycleMore.

(** * The duration that an analysis reports *)

(** With the weak stubs, the analysis of an open file of whatever content
    is refused and changes nothing. *)
Lemma stub_analyze_file (fp : FILE) (d o : addr) (w : world unit) :
  mp3_analyze (impl := weak_stub) (Some d) (Some (file_host_api fp)) (Some o) w
  = Some (if decide (has_room w) then MP3_ERR_NOT_IMPLEMENTED
          else MP3_ERR_OUT_OF_MEMORY, w).
Proof.
  rewrite (mp3_analyze_checked _ _ host_read_at) by reflexivity.
  unfold analyze_outcome. destruct (decide (has_room w)); [|reflexivity].
  simpl. rewrite world_eta. reflexivity.
Qed.




(** * Error strings *)

(** X8.  The text that [mp3_error_string] gives for a code of the
    enumeration belongs to that code alone and is never the text of the
    [default] branch; any value outside the enumeration gets "Unknown
    error code". *)
Theorem error_string_identifies_code :
  (forall r1 r2,
     mp3_error_string (result_value r1) = mp3_error_string (result_value r2) ->
     r1 = r2) /\
  (forall r, mp3_error_string (result_value r) <> "Unknown error code"%string) /\
  (forall z, (forall r, result_value r <> z) ->
             mp3_error_string z = "Unknown error code"%string).
Proof.
  split; [|split].
  - intros r1 r2. destruct r1, r2; simpl; intros H;
      first [reflexivity | discriminate H].
  - intros r. destruct r; simpl; discriminate.
  - intros z Hz. destruct z as [|p|p]; [|..|reflexivity].
    + destruct (Hz MP3_OK); reflexivity.
    + do 8 (try (destruct p as [p|p|]; try reflexivity)); exfalso;
        first [ apply (Hz MP3_ERR_INVALID_PTR); reflexivity
              | apply (Hz MP3_ERR_INVALID_ARG); reflexivity
              | apply (Hz MP3_ERR_OUT_OF_MEMORY); reflexivity
              | apply (Hz MP3_ERR_IO); reflexivity
              | apply (Hz MP3_ERR_INVALID_FORMAT); reflexivity
              | apply (Hz MP3_ERR_NOT_IMPLEMENTED); reflexivity
              | apply (Hz MP3_ERR_INTERNAL); reflexivity
              | apply (Hz MP3_ERR_UNKNOWN); reflexivity ].
Qed.

(** * The read callback of the test host *)

Section HostRead.
Variables (f : FILE) (size : Z).

(** The context of an open file. *)
Local Abbreviation ctx := (Some (FileCtx (Some f) size)).
Local Abbreviation file := (file_bytes f).

(** X9.  On an open file and an offset that [fseeko] accepts, one that
    [off_t] can hold and that is not beyond what the file system allows,
    [host_read_at] succeeds and delivers the bytes of the file from the
    offset on: never more than requested, all that were requested when
    the file has them, else all that are left.  An offset beyond what
    the file system allows is an I/O error without bytes. *)
Theorem host_read_at_segment offset requested :
  (0 <= offset < 2 ^ 63 -> offset <= max_offset f ->
   exists bs,
     host_read_at ctx offset requested = (MP3_OK, bs) /\
     length bs = Nat.min requested (length file - Z.to_nat offset) /\
     forall i, (i < length bs)%nat ->
               bs !! i = file !! (Z.to_nat offset + i)%nat) /\
  (max_offset f < offset ->
   host_read_at ctx offset requested = (MP3_ERR_IO, [])).
Proof.
  split.
  - intros Hoff Hmax. unfold host_read_at. simpl.
    destruct (decide (2 ^ 63 <= offset \/ max_offset f < offset)); [lia|].
    eexists. split; [reflexivity|]. split.
    + rewrite length_take, length_drop. reflexivity.
    + intros i Hi. rewrite length_take in Hi.
      rewrite lookup_take_lt, lookup_drop by lia. reflexivity.
  - intros Hmax. unfold host_read_at. simpl.
    destruct (decide (2 ^ 63 <= offset \/ max_offset f < offset)) as [|Hno];
      [reflexivity|]. destruct Hno. right. exact Hmax.
Qed.

(** X10.  Two reads one after the other deliver what one read of both
    lengths delivers: reading in chunks loses and repeats nothing. *)
Theorem host_read_at_chunks offset n m :
  0 <= offset -> offset + Z.of_nat n < 2 ^ 63 ->
  (host_read_at ctx offset n).2
  ++ (host_read_at ctx (offset + Z.of_nat n) m).2
  = (host_read_at ctx offset (n + m)%nat).2.
Proof.
  intros Hlo Hhi. unfold host_read_at, max_offset. simpl.
  assert (Hsplit : take n (drop (Z.to_nat offset) file)
                   ++ take m (drop (Z.to_nat (offset + Z.of_nat n)) file)
                   = take (n + m) (drop (Z.to_nat offset) file)).
  { rewrite Z2Nat.inj_add, Nat2Z.id by lia.
    rewrite <- drop_drop, <- take_take_drop. reflexivity. }
  destruct (decide (2 ^ 63 <= offset \/ _ < offset)) as [Ha|Ha];
    destruct (decide (2 ^ 63 <= offset + Z.of_nat n \/ _ < offset + Z.of_nat n))
      as [Hb|Hb]; simpl.
  - reflexivity.
  - lia.
  - rewrite <- Hsplit, app_nil_r.
    rewrite (drop_ge file (Z.to_nat (offset + Z.of_nat n))) by lia.
    rewrite take_nil, app_nil_r. reflexivity.
  - exact Hsplit.
Qed.

(** X11.  The end of the file is no error: a read at or past it delivers
    no bytes, and a read of at least one requested byte at an offset that
    [off_t] can hold is empty only there.  An offset that [off_t] cannot
    hold is an I/O error, a null context or a null [FILE*] an invalid
    pointer, both without bytes. *)
Theorem host_read_at_edges offset requested :
  (0 <= offset < 2 ^ 63 -> (0 < requested)%nat ->
   ((host_read_at ctx offset requested).2 = [] <->
    Z.of_nat (length file) <= offset)) /\
  (2 ^ 63 <= offset -> host_read_at ctx offset requested = (MP3_ERR_IO, [])) /\
  host_read_at None offset requested = (MP3_ERR_INVALID_PTR, []) /\
  host_read_at (Some (FileCtx None size)) offset requested
  = (MP3_ERR_INVALID_PTR, []).
Proof.
  split; [|split; [|split]]; try reflexivity.
  - intros Hoff Hreq. unfold host_read_at, max_offset. simpl.
    destruct (decide (2 ^ 63 <= offset \/ _ < offset)); simpl.
    + split; [lia|reflexivity].
    + rewrite <- length_zero_iff_nil, length_take, length_drop. lia.
  - intros Hoff. unfold host_read_at. simpl.
    destruct (decide (2 ^ 63 <= offset \/ max_offset f < offset)) as [|Hno];
      [reflexivity|]. destruct Hno. left. exact Hoff.
Qed.

End HostRead.

(** * The file name filter *)

Lemma tolower_inv (c t : Ascii.ascii) :
  TestCppApp.tolower c = t ->
  c = t \/ (Ascii.N_of_ascii t = Ascii.N_of_ascii c + 32 /\
            65 <= Ascii.N_of_ascii c <= 90)%N.
Proof.
  unfold TestCppApp.tolower.
  destruct (decide _) as [Hup|]; [|left; assumption].
  intros <-. right. split; [|exact Hup].
  rewrite Ascii.N_ascii_embedding; [reflexivity|lia].
Qed.

(** The characters that [tolower] sends to a given one that is no upper
    case letter: itself and, for a lower case letter, its upper case. *)
Lemma tolower_preimage (c t : Ascii.ascii) :
  TestCppApp.tolower c = t ->
  c = t \/ (97 <= Ascii.N_of_ascii t <= 122 /\
            c = Ascii.ascii_of_N (Ascii.N_of_ascii t - 32))%N.
Proof.
  intros H. destruct (tolower_inv _ _ H) as [|[Hn Hup]]; [left; assumption|].
  right. split; [lia|].
  rewrite Hn, N.add_sub. symmetry. apply Ascii.ascii_N_embedding.
Qed.

(** X12.  [isMp3] accepts exactly the extensions ".mp3", ".mP3", ".Mp3"
    and ".MP3". *)
Theorem isMp3_variants (extension : String.string) :
  TestCppApp.isMp3 extension = true <->
  In extension [".mp3"; ".mP3"; ".Mp3"; ".MP3"]%string.
Proof.
  split.
  - unfold TestCppApp.isMp3. intros H%String.eqb_eq.
    destruct extension as [|c0 [|c1 [|c2 [|c3 [|c4 rest]]]]];
      simpl in H; try discriminate H.
    injection H as H0 H1 H2 H3.
    apply tolower_preimage in H0, H1, H2, H3.
    destruct H0 as [-> | [H0 _]]; [|vm_compute in H0; intuition discriminate].
    destruct H3 as [-> | [H3 _]]; [|vm_compute in H3; intuition discriminate].
    destruct H1 as [-> | [_ ->]], H2 as [-> | [_ ->]]; simpl; tauto.
  - simpl. intros [<- | [<- | [<- | [<- | []]]]]; reflexivity.
Qed.

(** * The test application *)

Section TestHost.
Context {E : Type} {impl : Engine E}.
Implicit Types (w : world E).

(** The closed form of [analyzeFile] on a file that opens: the local
    record is gone again, the rest is what [mp3_analyze] made of it. *)
Lemma analyzeFile_opened (detector : ptr) filename fp w r w1 :
  let p := fresh (dom (info_vars w)) in
  mp3_analyze detector (Some (file_host_api fp)) (Some p)
              (set_info_vars <[p := zero_info]> w) = Some (r, w1) ->
  exists v,
    info_vars w1 !! p = Some v /\
    TestCppApp.analyzeFile detector filename (Some fp) w
    = Some ({| TestCppApp.name := filename;
               TestCppApp.ok := bool_decide (r = MP3_OK) && negb (valid v =? 0);
               TestCppApp.code := r;
               TestCppApp.info := v |},
            World (g_detector w) (heap w) (heap_limit w) (session_vars w)
                  (info_vars w) (rust w1)) /\
    ((r ≠ MP3_OK /\ v = zero_info) \/
     exists rs e out e2,
       mp3_rust_session_run_impl rs (Some zero_info) e = (r, out, e2) /\
       v = default zero_info out).
Proof.
  intros p Han.
  pose proof (fresh_unused (info_vars w)) as Hp. fold p in Hp.
  destruct (mp3_analyze_effect _ _ _ _ _ _ Han)
    as (Hdet & Hheap & Hlimit & Hvars & Hinfo).
  assert (Hv : exists v,
            info_vars w1 !! p = Some v /\
            delete p (info_vars w1) = info_vars w /\
            ((r ≠ MP3_OK /\ v = zero_info) \/
             exists rs e out e2,
               mp3_rust_session_run_impl rs (Some zero_info) e = (r, out, e2) /\
               v = default zero_info out)).
  { destruct Hinfo as [[Hr ->] | (rs & e & out & e2 & Hrun & ->)]; simpl.
    - exists zero_info. rewrite lookup_insert_eq.
      rewrite delete_insert_id by exact Hp. auto.
    - exists (default zero_info out).
      rewrite lookup_insert_eq, insert_insert_eq.
      rewrite delete_insert_id by exact Hp.
      split; [reflexivity|]. split; [reflexivity|]. right. eauto 10. }
  destruct Hv as (v & Hlook & Hdel & Hcases).
  exists v. split; [exact Hlook|]. split; [|exact Hcases].
  unfold TestCppApp.analyzeFile.
  unfold bind at 1, TestCppApp.push_local_info at 1. cbv beta zeta. fold p.
  unfold bind at 1. rewrite Han.
  unfold bind, TestCppApp.load_info, TestCppApp.pop_local_info, modify, ret,
    set_info_vars.
  rewrite Hlook, Hdel, Hdet, Hheap, Hlimit, Hvars. reflexivity.
Qed.

Lemma analyzeFile_None (detector : ptr) filename w :
  TestCppApp.analyzeFile detector filename None w
  = Some ({| TestCppApp.name := filename; TestCppApp.ok := false;
             TestCppApp.code := MP3_ERR_IO; TestCppApp.info := zero_info |},
          w).
Proof.
  unfold TestCppApp.analyzeFile, TestCppApp.push_local_info,
    TestCppApp.pop_local_info.
  primitives. rewrite delete_insert_id by apply fresh_unused.
  rewrite world_eta. reflexivity.
Qed.

(** [analyzeFile] always returns, and restores all but the engine. *)
Lemma analyzeFile_leaves_no_trace_lemma (detector : ptr) filename file w :
  exists res w',
    TestCppApp.analyzeFile detector filename file w = Some (res, w') /\
    heap w' = heap w /\ heap_limit w' = heap_limit w /\
    session_vars w' = session_vars w /\ info_vars w' = info_vars w.
Proof.
  destruct file as [fp|].
  - destruct (mp3_analyze_total detector (Some (file_host_api fp))
                (Some (fresh (dom (info_vars w))))
                (set_info_vars <[fresh (dom (info_vars w)) := zero_info]> w))
      as (r & w1 & Han).
    destruct (analyzeFile_opened detector filename fp w r w1 Han)
      as (v & _ & -> & _).
    eexists _, _. split; [reflexivity|]. repeat split.
  - rewrite analyzeFile_None. eexists _, _. split; [reflexivity|].
    repeat split.
Qed.

(** X13.  [analyzeFile] always returns, and leaves the detector, the
    session objects, the session variables and the callers' records as
    they were: the session and its own record are gone again.  Its [ok]
    says that the code is [MP3_OK] and the valid flag is set.  For a file
    that does not open it reports the I/O error with an all-zero record
    and changes nothing at all. *)
Theorem analyzeFile_leaves_no_trace (detector : ptr) filename file w :
  exists res w',
    TestCppApp.analyzeFile detector filename file w = Some (res, w') /\
    TestCppApp.name res = filename /\
    (TestCppApp.ok res = true <->
     TestCppApp.code res = MP3_OK /\ valid (TestCppApp.info res) ≠ 0) /\
    (file = None ->
     TestCppApp.code res = MP3_ERR_IO /\ TestCppApp.info res = zero_info /\
     w' = w) /\
    g_detector w' = g_detector w /\ heap w' = heap w /\
    heap_limit w' = heap_limit w /\ session_vars w' = session_vars w /\
    info_vars w' = info_vars w.
Proof.
  destruct file as [fp|].
  - destruct (mp3_analyze_total detector (Some (file_host_api fp))
                (Some (fresh (dom (info_vars w))))
                (set_info_vars <[fresh (dom (info_vars w)) := zero_info]> w))
      as (r & w1 & Han).
    destruct (analyzeFile_opened detector filename fp w r w1 Han)
      as (v & _ & -> & _).
    eexists _, _. split; [reflexivity|]. simpl.
    split; [reflexivity|]. split; [|split; [discriminate|repeat split]].
    rewrite andb_true_iff, bool_decide_eq_true, negb_true_iff, Z.eqb_neq.
    reflexivity.
  - rewrite analyzeFile_None. eexists _, _. split; [reflexivity|]. simpl.
    split; [reflexivity|]. split; [|repeat split].
    split; [discriminate|]. intros [[=] _].
Qed.

(** X14.  With an engine that sets no valid flag when its run fails,
    whatever code other than [MP3_OK] [analyzeFile] reports comes with a
    record whose valid flag is 0 and with [ok] false: the record that the
    test host zeroes itself never shows stale data. *)
Theorem analyzeFile_failure_is_invalid (detector : ptr) filename file w res w' :
  engine_failure_invalid ->
  TestCppApp.analyzeFile detector filename file w = Some (res, w') ->
  TestCppApp.code res ≠ MP3_OK ->
  valid (TestCppApp.info res) = 0 /\ TestCppApp.ok res = false.
Proof.
  intros Hengine Hfile Hcode.
  destruct file as [fp|].
  - destruct (mp3_analyze_total detector (Some (file_host_api fp))
                (Some (fresh (dom (info_vars w))))
                (set_info_vars <[fresh (dom (info_vars w)) := zero_info]> w))
      as (r & w1 & Han).
    destruct (analyzeFile_opened detector filename fp w r w1 Han)
      as (v & _ & Heq & Hcases).
    rewrite Heq in Hfile. injection Hfile as <- _. simpl in *.
    assert (Hv : valid v = 0).
    { destruct Hcases as [[_ ->] | (rs & e & out & e2 & Hrun & ->)];
        [reflexivity|].
      destruct out as [out|]; [|reflexivity].
      apply (Hengine _ _ _ _ _ Hrun Hcode). }
    split; [exact Hv|]. rewrite Hv. apply andb_false_r.
  - rewrite analyzeFile_None in Hfile. injection Hfile as <- _.
    split; reflexivity.
Qed.

(** What the loop of [main] does, to its counters and to the world. *)
Lemma run_files_effect (detector : ptr) files passed failed w :
  exists passed' failed' w',
    TestCppApp.run_files detector files passed failed w
    = Some ((passed', failed'), w') /\
    passed' + failed' = passed + failed + Z.of_nat (length files) /\
    passed <= passed' /\ failed <= failed' /\
    heap w' = heap w /\ heap_limit w' = heap_limit w /\
    session_vars w' = session_vars w /\ info_vars w' = info_vars w.
Proof.
  revert passed failed w. induction files as [|f rest IH]; intros passed failed w.
  - exists passed, failed, w. simpl. unfold ret.
    repeat split; try reflexivity; lia.
  - destruct (analyzeFile_leaves_no_trace_lemma detector (TestCppApp.entry_name f)
                (TestCppApp.entry_file f) w)
      as (res & w1 & Hfile & Hheap & Hlimit & Hvars & Hinfo).
    cbn [TestCppApp.run_files]. unfold bind at 1. rewrite Hfile.
    destruct (TestCppApp.ok res).
    + destruct (IH (passed + 1) failed w1)
        as (p' & f' & w' & -> & Hsum & Hp & Hf & Hh & Hl & Hv & Hi).
      exists p', f', w'. split; [reflexivity|].
      rewrite Hh, Hl, Hv, Hi. simpl length.
      repeat split; try assumption; lia.
    + destruct (IH passed (failed + 1) w1)
        as (p' & f' & w' & -> & Hsum & Hp & Hf & Hh & Hl & Hv & Hi).
      exists p', f', w'. split; [reflexivity|].
      rewrite Hh, Hl, Hv, Hi. simpl length.
      repeat split; try assumption; lia.
Qed.

(** X15.  The loop of [main] always finishes; every file is counted once,
    as passed or as failed, and the session objects, session variables
    and records are afterwards what they were. *)
Theorem run_files_counts (detector : ptr) files passed failed w :
  exists passed' failed' w',
    TestCppApp.run_files detector files passed failed w
    = Some ((passed', failed'), w') /\
    passed' + failed' = passed + failed + Z.of_nat (length files) /\
    passed <= passed' /\ failed <= failed' /\
    heap w' = heap w /\ heap_limit w' = heap_limit w /\
    session_vars w' = session_vars w /\ info_vars w' = info_vars w.
Proof. apply run_files_effect. Qed.

End TestHost.

(** ** The exit status *)

Section ExitStatus.
Context {E : Type} {impl : Engine E}.
Implicit Types (w : world E) (dir : TestCppApp.directory).

Lemma sorted_nil_iff (entries : list TestCppApp.dir_entry) :
  merge_sort TestCppApp.path_le entries = [] <-> entries = [].
Proof.
  pose proof (merge_sort_Permutation TestCppApp.path_le entries) as Hperm.
  split; intros Heq.
  - rewrite Heq in Hperm. symmetry in Hperm.
    apply Permutation_nil_r in Hperm. exact Hperm.
  - subst entries. apply Permutation_nil_r in Hperm. exact Hperm.
Qed.

(** [main] once the directory is listed and the files are collected. *)
Lemma main_found dir found w :
  TestCppApp.fs_exists dir = Some true ->
  TestCppApp.fs_is_directory dir = Some true ->
  TestCppApp.directory_iterator dir ≫= TestCppApp.collect = Some found ->
  exists passed failed w',
    TestCppApp.run_files (Some g_detector_addr)
      (merge_sort TestCppApp.path_le found) 0 0 w
    = Some ((passed, failed), w') /\
    TestCppApp.main dir w
    = Some (TestCppApp.Exit (if decide (failed > 0) then 1 else 0), w') /\
    passed + failed = Z.of_nat (length found) /\
    0 <= passed /\ 0 <= failed /\
    heap w' = heap w /\ session_vars w' = session_vars w /\
    info_vars w' = info_vars w.
Proof.
  intros Hex Hdir Hfound.
  destruct (run_files_effect (Some g_detector_addr)
              (merge_sort TestCppApp.path_le found) 0 0 w)
    as (p' & f' & w' & Hrun & Hsum & Hp & Hf & Hh & _ & Hv & Hi).
  exists p', f', w'. split; [exact Hrun|].
  rewrite (Permutation_length (merge_sort_Permutation _ found)) in Hsum.
  split; [|repeat split; try assumption; lia].
  unfold TestCppApp.main. rewrite Hex, Hdir, Hfound.
  destruct (merge_sort TestCppApp.path_le found) as [|f files] eqn:Hsort.
  - simpl in Hrun. unfold ret in Hrun. injection Hrun as <- <- <-.
    reflexivity.
  - unfold bind at 1, mp3_detector_instance, ret at 1. unfold bind at 1.
    rewrite Hrun. reflexivity.
Qed.

(** X16.  [main] always ends, and in one of three ways: with status 0,
    with status 1, or aborted by an exception that a call of
    [std::filesystem] threw.  It is aborted exactly when [fs::exists]
    throws, or the path exists and [fs::is_directory] throws, or the
    path is a directory and listing it or asking an entry whether it is
    a regular file throws; nothing has been analysed then.  The status
    is 1 with nothing analysed when the path does not exist or is no
    directory.  Otherwise the collected files are run in sorted order,
    each counted once, and the status is 1 exactly when the loop counted
    a failed file, hence 0 when there was none to run.  The session
    objects, session variables and records are afterwards what they
    were. *)
Theorem main_exit_status dir w :
  let thrown :=
    TestCppApp.fs_exists dir = None \/
    (TestCppApp.fs_exists dir = Some true /\
     (TestCppApp.fs_is_directory dir = None \/
      (TestCppApp.fs_is_directory dir = Some true /\
       TestCppApp.directory_iterator dir ≫= TestCppApp.collect = None))) in
  let missing :=
    TestCppApp.fs_exists dir = Some false \/
    (TestCppApp.fs_exists dir = Some true /\
     TestCppApp.fs_is_directory dir = Some false) in
  exists t w',
    TestCppApp.main dir w = Some (t, w') /\
    heap w' = heap w /\ session_vars w' = session_vars w /\
    info_vars w' = info_vars w /\
    (t = TestCppApp.Exit 0 \/ t = TestCppApp.Exit 1 \/
     t = TestCppApp.Terminate) /\
    (t = TestCppApp.Terminate <-> thrown) /\
    (thrown -> w' = w) /\
    (missing -> t = TestCppApp.Exit 1 /\ w' = w) /\
    (forall found,
       TestCppApp.fs_exists dir = Some true ->
       TestCppApp.fs_is_directory dir = Some true ->
       TestCppApp.directory_iterator dir ≫= TestCppApp.collect = Some found ->
       exists passed failed,
         TestCppApp.run_files (Some g_detector_addr)
           (merge_sort TestCppApp.path_le found) 0 0 w
         = Some ((passed, failed), w') /\
         passed + failed = Z.of_nat (length found) /\
         0 <= passed /\ 0 <= failed /\
         t = TestCppApp.Exit (if decide (failed > 0) then 1 else 0)).
Proof.
  intros thrown missing. unfold thrown, missing. clear thrown missing.
  destruct (TestCppApp.fs_exists dir) as [[|]|] eqn:Hex.
  2:{ exists (TestCppApp.Exit 1), w. unfold TestCppApp.main. rewrite Hex.
      split; [reflexivity|]. repeat split; intros; try reflexivity;
        try congruence; intuition congruence. }
  2:{ exists TestCppApp.Terminate, w. unfold TestCppApp.main. rewrite Hex.
      split; [reflexivity|]. repeat split; intros; try reflexivity;
        try congruence; intuition congruence. }
  destruct (TestCppApp.fs_is_directory dir) as [[|]|] eqn:Hdir.
  2:{ exists (TestCppApp.Exit 1), w. unfold TestCppApp.main. rewrite Hex, Hdir.
      split; [reflexivity|]. repeat split; intros; try reflexivity;
        try congruence; intuition congruence. }
  2:{ exists TestCppApp.Terminate, w. unfold TestCppApp.main. rewrite Hex, Hdir.
      split; [reflexivity|]. repeat split; intros; try reflexivity;
        try congruence; intuition congruence. }
  destruct (TestCppApp.directory_iterator dir ≫= TestCppApp.collect)
    as [found|] eqn:Hfound.
  2:{ exists TestCppApp.Terminate, w. unfold TestCppApp.main.
      rewrite Hex, Hdir, Hfound.
      split; [reflexivity|]. repeat split; intros; try reflexivity;
        try congruence; intuition congruence. }
  destruct (main_found dir found w Hex Hdir Hfound)
    as (p' & f' & w' & Hrun & Hmain & Hsum & Hp & Hf & Hh & Hv & Hi).
  exists (TestCppApp.Exit (if decide (f' > 0) then 1 else 0)), w'.
  split; [exact Hmain|]. split; [exact Hh|]. split; [exact Hv|].
  split; [exact Hi|].
  split; [destruct (decide (f' > 0)); auto|].
  split; [split; [discriminate|intuition congruence]|].
  split; [intuition congruence|].
  split; [intuition congruence|].
  intros found' _ _ [= <-]. exists p', f'. auto.
Qed.

End ExitStatus.

(** * The test application without an engine *)

Section StubHost.
Implicit Types (w : world unit).

Lemma stub_analyze_fails (detector : ptr) (host_api : option mp3_host_api_t)
    (out_info : ptr) w :
  exists r, mp3_analyze detector host_api out_info w = Some (r, w) /\
            r ≠ MP3_OK.
Proof.
  destruct out_info as [o|].
  2:{ rewrite mp3_analyze_null by auto. eexists; split; [reflexivity|discriminate]. }
  destruct (mp3_analyze_cases detector host_api o w)
    as [H | [H | (d & api & f & _ & _ & _ & H)]]; rewrite H.
  - eexists; split; [reflexivity|discriminate].
  - eexists; split; [reflexivity|discriminate].
  - unfold analyze_outcome. destruct (decide (has_room w)).
    + simpl. rewrite world_eta. eexists; split; [reflexivity|discriminate].
    + eexists; split; [reflexivity|discriminate].
Qed.

Lemma stub_analyzeFile (detector : ptr) filename file w :
  exists r,
    TestCppApp.analyzeFile detector filename file w
    = Some ({| TestCppApp.name := filename; TestCppApp.ok := false;
               TestCppApp.code := r; TestCppApp.info := zero_info |}, w) /\
    r ≠ MP3_OK /\
    (forall d fp, detector = Some d -> file = Some fp -> has_room w ->
                     r = MP3_ERR_NOT_IMPLEMENTED).
Proof.
  destruct file as [bytes|].
  - set (p := fresh (dom (info_vars w))).
    set (wp := set_info_vars <[p := zero_info]> w).
    destruct (stub_analyze_fails detector (Some (file_host_api bytes))
                (Some p) wp) as (r & Han & Hr).
    destruct (analyzeFile_opened detector filename bytes w r wp Han)
      as (v & Hlook & Heq & _).
    assert (v = zero_info) as ->.
    { unfold wp in Hlook. simpl in Hlook. rewrite lookup_insert_eq in Hlook.
      congruence. }
    exists r. split; [|split; [exact Hr|]].
    + rewrite Heq. change (valid zero_info =? 0) with true.
      rewrite andb_false_r. change (rust wp) with (rust w).
      rewrite world_eta. reflexivity.
    + intros d bytes' -> _ Hroom.
      unfold wp in Han.
      rewrite (mp3_analyze_checked _ _ host_read_at) in Han by reflexivity.
      unfold analyze_outcome in Han.
      destruct (decide (has_room _)) as [|Hno]; [|destruct Hno; exact Hroom].
      simpl in Han. congruence.
  - exists MP3_ERR_IO. rewrite analyzeFile_None.
    split; [reflexivity|]. split; [discriminate|]. discriminate.
Qed.

(** X17.  In the build without an engine [analyzeFile] fails for every
    file, with [ok] false and an all-zero record, and changes nothing;
    for a file that opens, with the singleton detector and room for a
    session object, the code is [MP3_ERR_NOT_IMPLEMENTED]. *)
Theorem stub_analyzeFile_fails (detector : ptr) filename file w :
  exists r,
    TestCppApp.analyzeFile detector filename file w
    = Some ({| TestCppApp.name := filename; TestCppApp.ok := false;
               TestCppApp.code := r; TestCppApp.info := zero_info |}, w) /\
    r ≠ MP3_OK /\
    (forall d fp, detector = Some d -> file = Some fp -> has_room w ->
                     r = MP3_ERR_NOT_IMPLEMENTED).
Proof. apply stub_analyzeFile. Qed.

Lemma stub_run_files (detector : ptr) files passed failed w :
  TestCppApp.run_files detector files passed failed w
  = Some ((passed, failed + Z.of_nat (length files)), w).
Proof.
  revert failed. induction files as [|f rest IH]; intros failed.
  - simpl. unfold ret. do 3 f_equal. lia.
  - cbn [TestCppApp.run_files]. unfold bind at 1.
    destruct (stub_analyzeFile detector (TestCppApp.entry_name f)
                (TestCppApp.entry_file f) w) as (r & -> & _).
    cbn [TestCppApp.ok]. rewrite IH. do 3 f_equal. simpl length. lia.
Qed.

(** X18.  In the build without an engine [main] changes nothing, and
    ends with status 1 when the path is missing or no directory, with
    status 1 as well when the directory holds a regular file with an MP3
    extension, and with status 0 when it holds none, unless a call of
    [std::filesystem] throws on the way, which aborts it. *)
Theorem stub_main_exit_status (dir : TestCppApp.directory) w :
  TestCppApp.main dir w
  = Some (match TestCppApp.fs_exists dir with
          | None => TestCppApp.Terminate
          | Some false => TestCppApp.Exit 1
          | Some true =>
              match TestCppApp.fs_is_directory dir with
              | None => TestCppApp.Terminate
              | Some false => TestCppApp.Exit 1
              | Some true =>
                  match TestCppApp.directory_iterator dir
                        ≫= TestCppApp.collect with
                  | None => TestCppApp.Terminate
                  | Some [] => TestCppApp.Exit 0
                  | Some (_ :: _) => TestCppApp.Exit 1
                  end
              end
          end, w).
Proof.
  unfold TestCppApp.main.
  destruct (TestCppApp.fs_exists dir) as [[|]|]; try reflexivity.
  destruct (TestCppApp.fs_is_directory dir) as [[|]|]; try reflexivity.
  destruct (TestCppApp.directory_iterator dir ≫= TestCppApp.collect)
    as [found|]; [|reflexivity].
  destruct (merge_sort TestCppApp.path_le found) as [|f files] eqn:Hsort.
  - apply (proj1 (sorted_nil_iff _)) in Hsort. subst found. reflexivity.
  - assert (Hne : found ≠ []).
    { intros Heq. apply (proj2 (sorted_nil_iff _)) in Heq. congruence. }
    destruct found as [|e rest]; [congruence|].
    unfold bind at 1, mp3_detector_instance, ret at 1. unfold bind at 1.
    rewrite stub_run_files. unfold ret. cbn [snd].
    destruct (decide (0 + Z.of_nat (length (f :: files)) > 0)) as [|Hno];
      [reflexivity|]. simpl length in Hno. lia.
Qed.

(** What [collect] keeps: the entries that are regular files with an MP3
    extension, in their order, as long as no entry throws. *)
Lemma collect_filter entries :
  TestCppApp.collect entries
  = if forallb (fun e => bool_decide (is_Some (TestCppApp.is_regular_file e)))
               entries
    then Some (List.filter
                 (fun e => default false (TestCppApp.is_regular_file e)
                           && TestCppApp.isMp3 (TestCppApp.entry_extension e))
                 entries)
    else None.
Proof.
  induction entries as [|e rest IH]; [reflexivity|].
  cbn [TestCppApp.collect forallb List.filter].
  destruct (TestCppApp.is_regular_file e) as [regular|]; [|reflexivity].
  rewrite IH. cbn [default].
  rewrite bool_decide_eq_true_2 by eauto. cbn [andb].
  destruct (forallb _ rest); reflexivity.
Qed.

(** X19.  In the build without an engine [mp3_session_init] never returns
    [MP3_OK] and never leaves a session object behind, whatever its
    arguments: no session can be obtained. *)
Theorem stub_session_init_never_succeeds (detector : ptr)
    (host_api : option mp3_host_api_t) (out_session : ptr) w :
  exists r w',
    mp3_session_init detector host_api out_session w = Some (r, w') /\
    r ≠ MP3_OK /\ heap w' = heap w.
Proof.
  destruct out_session as [out|].
  2:{ rewrite mp3_session_init_null by auto.
      eexists _, _. split; [reflexivity|]. split; [discriminate|reflexivity]. }
  destruct (mp3_session_init_cases detector host_api out w)
    as [H | [H | (d & api & f & _ & _ & _ & H)]]; rewrite H.
  - eexists _, _. split; [reflexivity|]. split; [discriminate|reflexivity].
  - eexists _, _. split; [reflexivity|]. split; [discriminate|reflexivity].
  - unfold init_outcome. destruct (decide (has_room w)); simpl;
      eexists _, _; (split; [reflexivity|]); split;
      try discriminate; reflexivity.
Qed.

End StubHost.

(** * Instances *)

Lemma host_read_at_segment_witness :
  (exists bs,
     host_read_at (Some (FileCtx (Some (file_of [x01; x02; x03])) 3)) 1 5%nat
     = (MP3_OK, bs) /\
     length bs = 2%nat) /\
  host_read_at (Some (FileCtx (Some (file_of [x01; x02; x03])) 3)) 5000 5%nat
  = (MP3_ERR_IO, []).
Proof.
  destruct (host_read_at_segment (file_of [x01; x02; x03]) 3 1 5%nat)
    as [Hin _].
  destruct (host_read_at_segment (file_of [x01; x02; x03]) 3 5000 5%nat)
    as [_ Hout].
  split.
  - destruct (Hin ltac:(lia) ltac:(vm_compute; discriminate))
      as (bs & Hread & Hlen & _).
    exists bs. split; [exact Hread|exact Hlen].
  - apply Hout. vm_compute. reflexivity.
Defined.

Lemma host_read_at_chunks_witness :
  (host_read_at (Some (FileCtx (Some (file_of [x01; x02; x03])) 3)) 0 2%nat).2
  ++ (host_read_at (Some (FileCtx (Some (file_of [x01; x02; x03])) 3)) 2 2%nat).2
  = (host_read_at (Some (FileCtx (Some (file_of [x01; x02; x03])) 3)) 0 4%nat).2.
Proof.
  exact (host_read_at_chunks (file_of [x01; x02; x03]) 3 0 2%nat 2%nat
           ltac:(lia) ltac:(lia)).
Defined.

Lemma analyzeFile_failure_is_invalid_witness :
  valid zero_info = 0 /\ false = false.
Proof.
  exact (analyzeFile_failure_is_invalid (Some g_detector_addr) "a.mp3"%string
           (Some empty_file) (sample_world tt)
           {| TestCppApp.name := "a.mp3"%string; TestCppApp.ok := false;
              TestCppApp.code := MP3_ERR_NOT_IMPLEMENTED;
              TestCppApp.info := zero_info |}
           (sample_world tt) stub_failure_invalid
           ltac:(vm_compute; reflexivity) ltac:(discriminate)).
Defined.

Lemma session_init_failure_leaks_nothing_witness :
  heap (set_session_vars <[9%positive := None]> (sample_world tt))
  = heap (sample_world tt).
Proof.
  refine (proj1 (proj1 (session_init_failure_leaks_nothing
                          (Some g_detector_addr) (Some (file_host_api empty_file))
                          (Some 9%positive) (sample_world tt)
                          MP3_ERR_NOT_IMPLEMENTED
                          (set_session_vars <[9%positive := None]>
                                            (sample_world tt)) _) _)).
  - vm_compute; reflexivity.
  - discriminate.
Defined.

Lemma session_run_frame_witness :
  exists r2 w2,
    mp3_session_run (Some 3%positive) (Some 5%positive)
      (set_info_vars <[5%positive := zero_info]> sample_world_live)
    = Some (r2, w2).
Proof.
  refine (proj2 (proj2 (proj2 (proj2 (proj2
            (session_run_frame 3%positive 5%positive sample_world_live
               MP3_ERR_NOT_IMPLEMENTED
               (set_info_vars <[5%positive := zero_info]> sample_world_live)
               _)))))).
  vm_compute; reflexivity.
Defined.

Lemma session_use_after_deinit_witness :
  exists w',
    mp3_session_deinit (Some 3%positive) sample_world_live = Some (tt, w') /\
    mp3_session_run (Some 3%positive) (Some 5%positive) w' = None.
Proof.
  destruct (session_use_after_deinit 3%positive 5%positive sample_world_live)
    as (w' & Hdeinit & _ & _ & Hrun & _).
  - vm_compute. eauto.
  - exists w'. split; assumption.
Defined.

Lemma two_sessions_are_independent_witness :
  exists w1 w2 s1 s2,
    mp3_session_init (impl := SpecEngine.engine SpecEngine.example_policy)
      (Some g_detector_addr) (Some (file_host_api empty_file)) (Some 9%positive)
      engine_world = Some (MP3_OK, w1) /\
    mp3_session_init (impl := SpecEngine.engine SpecEngine.example_policy)
      (Some g_detector_addr) (Some (file_host_api empty_file)) (Some 10%positive)
      w1 = Some (MP3_OK, w2) /\
    s1 ≠ s2 /\ is_Some (heap w2 !! s1) /\ is_Some (heap w2 !! s2).
Proof.
  set (eng := SpecEngine.engine SpecEngine.example_policy).
  set (w1 := (init_outcome (impl := eng) (file_host_api empty_file) 9%positive
                engine_world).2).
  set (w2 := (init_outcome (impl := eng) (file_host_api empty_file) 10%positive w1).2).
  assert (H1 : mp3_session_init (impl := eng) (Some g_detector_addr)
                 (Some (file_host_api empty_file)) (Some 9%positive) engine_world
               = Some (MP3_OK, w1)) by (vm_compute; reflexivity).
  assert (H2 : mp3_session_init (impl := eng) (Some g_detector_addr)
                 (Some (file_host_api empty_file)) (Some 10%positive) w1
               = Some (MP3_OK, w2)) by (vm_compute; reflexivity).
  destruct (two_sessions_are_independent (impl := eng) _ _ _ _
              9%positive 10%positive _ _ _ ltac:(discriminate) H1 H2)
    as (s1 & s2 & _ & _ & Hne & Hs1 & Hs2 & _).
  exists w1, w2, s1, s2. repeat split; assumption.
Defined.

Lemma analyze_out_of_memory_witness :
  mp3_analyze (Some g_detector_addr) (Some (file_host_api empty_file))
              (Some 5%positive) (full_world tt)
  = Some (MP3_ERR_OUT_OF_MEMORY, full_world tt).
Proof.
  apply (analyze_out_of_memory g_detector_addr (file_host_api empty_file)
           host_read_at 5%positive (full_world tt) eq_refl).
  unfold has_room. vm_compute. lia.
Defined.

Lemma analyze_writes_only_out_info_witness :
  heap (sample_world tt) = heap (sample_world tt) /\
  session_vars (sample_world tt) = session_vars (sample_world tt).
Proof.
  destruct (analyze_writes_only_out_info (Some g_detector_addr)
              (Some (file_host_api empty_file)) 5%positive (sample_world tt)
              MP3_ERR_NOT_IMPLEMENTED (sample_world tt))
    as (_ & Hheap & Hvars & _).
  - vm_compute; reflexivity.
  - split; assumption.
Defined.
